(** * Picteractive drawing stage (src/src/App.jsx, function DrawPage)

    A shallow embedding of the drawing / history / flood-fill engine, the
    quality gate and the panel collection of the DrawPage component, and
    the properties of its specification that hold (or fail) on that code;
    then the word wrap of the saved story image and the handlers of the
    quiz page of the same file, with further properties of all of these.

    Conventions:
    - a JS number that the code uses as an integer is a [Z];
    - a JS string is the list of its UTF-16 code units ([list N]), so that
      [length] is the JS [.length];
    - a typed array ([Uint8ClampedArray], [Uint8Array]) is a [list Z] read
      and written by index with stdpp's lookup and insert: a read out of
      range is [None] (JS [undefined]), a write out of range does nothing;
    - a JS array used as a stack is a list in array order (index 0 first),
      so [push] appends at the end and [pop] removes the last element;
      only the work stack of the flood fill is kept top-first;
    - the doubles of the quality gate are Rocq's primitive binary64 floats. *)

From Stdlib Require Import ZArith NArith Bool List Ascii String Lia PrimFloat Uint63 Floats.
From stdpp Require Import base tactics option list.
Import ListNotations.

Local Open Scope Z_scope.

(** ** JS strings *)

Module JsString.

Abbreviation jsstring := (list N).

(** Code units of an ASCII literal. *)
Fixpoint js (s : string) : jsstring :=
  match s with
  | EmptyString => []
  | String a s' => N_of_ascii a :: js s'
  end.

(** ECMAScript WhiteSpace and LineTerminator code units, the ones
    [String.prototype.trim] and [parseInt] strip. *)
Definition isWhiteSpace (c : N) : bool :=
  ((9 <=? c) && (c <=? 13) || (c =? 32) || (c =? 160) || (c =? 5760)
   || (8192 <=? c) && (c <=? 8202) || (c =? 8232) || (c =? 8233)
   || (c =? 8239) || (c =? 8287) || (c =? 12288) || (c =? 65279))%N.

Fixpoint trimStart (s : jsstring) : jsstring :=
  match s with
  | c :: r => if isWhiteSpace c then trimStart r else s
  | [] => []
  end.

Definition trimEnd (s : jsstring) : jsstring := rev (trimStart (rev s)).

Definition trim (s : jsstring) : jsstring := trimEnd (trimStart s).

(** Value of a radix-16 digit, [None] for any other code unit. *)
Definition hexDigit (c : N) : option Z :=
  if ((48 <=? c) && (c <=? 57))%N then Some (Z.of_N c - 48)
  else if ((97 <=? c) && (c <=? 102))%N then Some (Z.of_N c - 87)
  else if ((65 <=? c) && (c <=? 70))%N then Some (Z.of_N c - 55)
  else None.

(** The longest prefix of radix-16 digits, read as a number; the
    accumulator is [None] while no digit has been read. *)
Fixpoint parseDigits (s : jsstring) (acc : option Z) : option Z :=
  match s with
  | c :: r =>
      match hexDigit c with
      | Some d => parseDigits r (Some (16 * default 0 acc + d))
      | None => acc
      end
  | [] => acc
  end.

(** [parseInt(s, 16)]: leading white space is skipped, then an optional
    sign, then an optional 0x or 0X, then the longest run of hex digits;
    [None] is NaN.  The value is exact, which is what JS computes for the
    strings of at most 13 digits; [hexToRgba] calls it on 6 code units. *)
Definition parseInt16 (s : jsstring) : option Z :=
  let s1 := trimStart s in
  let '(sign, s2) :=
    match s1 with
    | 45%N :: r => (-1, r)
    | 43%N :: r => (1, r)
    | _ => (1, s1)
    end in
  let s3 :=
    match s2 with
    | 48%N :: x :: r => if ((x =? 120) || (x =? 88))%N then r else s2
    | _ => s2
    end in
  match parseDigits s3 None with
  | Some v => Some (sign * v)
  | None => None
  end.

(** ToInt32, applied by [>>] and [&] to their operands; NaN becomes 0. *)
Definition toInt32 (n : option Z) : Z :=
  match n with
  | None => 0
  | Some z => (z + 2 ^ 31) mod 2 ^ 32 - 2 ^ 31
  end.

End JsString.

Import JsString.

(** ** Colours *)

(** An RGBA quadruple, the 4-element arrays [fill] and [target]. *)
Definition Rgba : Type := Z * Z * Z * Z.

Definition chR (c : Rgba) : Z := let '(r, _, _, _) := c in r.
Definition chG (c : Rgba) : Z := let '(_, g, _, _) := c in g.
Definition chB (c : Rgba) : Z := let '(_, _, b, _) := c in b.
Definition chA (c : Rgba) : Z := let '(_, _, _, a) := c in a.

Definition opaqueBlack : Rgba := (0, 0, 0, 255).

(** [hexToRgba(hex)], App.jsx l.1190. *)
Definition hexToRgba (hex : jsstring) : Rgba :=
  let h := trim hex in
  match h with
  | [] => opaqueBlack
  | _ =>
      let h := match h with 35%N :: r => r | _ => h end in
      let h := if (length h =? 3)%nat
               then flat_map (fun ch => [ch; ch]) h else h in
      if negb (length h =? 6)%nat then opaqueBlack
      else
        let num := toInt32 (parseInt16 h) in
        (Z.land (Z.shiftr num 16) 255,
         Z.land (Z.shiftr num 8) 255,
         Z.land num 255,
         255)
  end.

(** The string [hexToRgba] parses: trimmed, one leading # removed. *)
Definition hexBody (hex : jsstring) : jsstring :=
  let h := trim hex in match h with 35%N :: r => r | _ => h end.

(** ** Pixel buffers and the flood-fill loop *)

Module Fill.

(** [a[i]] on a typed array: [None] is [undefined]. *)
Definition aget (a : list Z) (i : Z) : option Z :=
  if i <? 0 then None else a !! Z.to_nat i.

(** Conversion of an integer stored into a [Uint8ClampedArray]. *)
Definition clamp8 (v : Z) : Z := Z.max 0 (Z.min 255 v).

(** [a[i] = v] on a typed array: ignored out of range. *)
Definition aset (a : list Z) (i v : Z) : list Z :=
  if i <? 0 then a else <[Z.to_nat i := v]> a.

(** The four values read at [idx0 .. idx0+3]; each may be [undefined]. *)
Definition Sample : Type := option Z * option Z * option Z * option Z.

Definition sampleAt (data : list Z) (i : Z) : Sample :=
  (aget data i, aget data (i + 1), aget data (i + 2), aget data (i + 3)).

(** [target[k] === fill[k]] for the four channels. *)
Definition sameColor (target : Sample) (fill : Rgba) : bool :=
  let '(t0, t1, t2, t3) := target in
  let '(f0, f1, f2, f3) := fill in
  bool_decide (t0 = Some f0) && bool_decide (t1 = Some f1)
  && bool_decide (t2 = Some f2) && bool_decide (t3 = Some f3).

Definition tol : Z := 8.

(** [Math.abs(a - b) <= tol]; with an [undefined] operand the difference
    is NaN and the comparison is false. *)
Definition near (a b : option Z) : bool :=
  match a, b with
  | Some x, Some y => Z.abs (x - y) <=? tol
  | _, _ => false
  end.

(** [matches(i)], l.1227. *)
Definition matches (data : list Z) (target : Sample) (i : Z) : bool :=
  let '(t0, t1, t2, t3) := target in
  near (aget data i) t0 && near (aget data (i + 1)) t1
  && near (aget data (i + 2)) t2 && near (aget data (i + 3)) t3.

(** The variables the loop mutates.  [stack] is kept top-first: the head
    is the element [stack.pop()] returns. *)
Record FillState : Type := mkFillState {
  data : list Z;
  visited : list Z;
  stack : list (Z * Z)
}.

(** [visited[i]] as a condition: 0 and [undefined] are falsy. *)
Definition isVisited (v : list Z) (i : Z) : bool :=
  match aget v i with
  | Some b => negb (b =? 0)
  | None => false
  end.

(** One iteration of the [while] body, l.1239-1254, for the popped
    point [(x, y)] and the rest of the stack. *)
Definition fillBody (width height : Z) (target : Sample) (fill : Rgba)
    (x y : Z) (d v : list Z) (rest : list (Z * Z)) : FillState :=
  if (x <? 0) || (y <? 0) || (x >=? width) || (y >=? height)
  then mkFillState d v rest
  else
    let i := y * width + x in
    if isVisited v i then mkFillState d v rest
    else
      let di := i * 4 in
      if negb (matches d target di) then mkFillState d v rest
      else
        let d := aset d di (clamp8 (chR fill)) in
        let d := aset d (di + 1) (clamp8 (chG fill)) in
        let d := aset d (di + 2) (clamp8 (chB fill)) in
        let d := aset d (di + 3) (clamp8 (chA fill)) in
        let v := aset v i 1 in
        (* stack.push([x+1,y],[x-1,y],[x,y+1],[x,y-1]): the last one
           pushed is on top *)
        mkFillState d v
          ((x, y - 1) :: (x, y + 1) :: (x - 1, y) :: (x + 1, y) :: rest).

(** [while(stack.length){ ... }], l.1238: [None] when the fuel runs out
    before the stack is empty. *)
Fixpoint floodLoop (fuel : nat) (width height : Z) (target : Sample)
    (fill : Rgba) (st : FillState) : option FillState :=
  match stack st with
  | [] => Some st
  | (x, y) :: rest =>
      match fuel with
      | O => None
      | S n =>
          floodLoop n width height target fill
            (fillBody width height target fill x y (data st) (visited st) rest)
      end
  end.

(** The state after [n] iterations (fewer if the stack empties). *)
Fixpoint iterate (n : nat) (width height : Z) (target : Sample)
    (fill : Rgba) (st : FillState) : FillState :=
  match n, stack st with
  | S m, (x, y) :: rest =>
      iterate m width height target fill
        (fillBody width height target fill x y (data st) (visited st) rest)
  | _, _ => st
  end.

(** The pixel index the next iteration colours, if it colours one. *)
Definition colours (width height : Z) (target : Sample) (st : FillState)
    : option Z :=
  match stack st with
  | (x, y) :: _ =>
      if (x <? 0) || (y <? 0) || (x >=? width) || (y >=? height) then None
      else
        let i := y * width + x in
        if isVisited (visited st) i then None
        else if matches (data st) target (i * 4) then Some i else None
  | [] => None
  end.

(** Iterations that always suffice on a [width] x [height] buffer. *)
Definition fillFuel (width height : Z) : nat :=
  S (4 * Z.to_nat (width * height)).

(** What l.1210-1255 of [floodFillAt] leave in [img.data]. *)
Inductive FillOutcome : Type :=
| Skipped                       (* one of the early returns *)
| Filled (d : list Z)           (* the loop ended: [d] is committed *)
| OutOfFuel.                    (* the loop did not end within [fillFuel] *)

(** l.1210-1255: [pixels] is [ctx.getImageData(0,0,width,height).data]
    read after [canvas.renderAll()]. *)
Definition floodFillData (width height : Z) (pixels : list Z)
    (startX startY : Z) (fill : Rgba) : FillOutcome :=
  if (startX <? 0) || (startY <? 0) || (startX >=? width)
     || (startY >=? height)
  then Skipped
  else
    let idx0 := (startY * width + startX) * 4 in
    let target := sampleAt pixels idx0 in
    if sameColor target fill then Skipped
    else
      let st := mkFillState pixels
                  (replicate (Z.to_nat (width * height)) 0)
                  [(startX, startY)] in
      match floodLoop (fillFuel width height) width height target fill st with
      | Some st' => Filled (data st')
      | None => OutOfFuel
      end.

End Fill.

Import Fill.

(** ** The canvas, the tools and the history stacks *)

Module Stage.

(** A [fabric.Path], the object a finished free-drawing stroke becomes. *)
Record Path : Type := mkPath {
  points : list (Z * Z);
  stroke : jsstring;
  strokeWidth : Z
}.

(** A raster image ([fabric.Image] built from a data URL). *)
Record Bitmap : Type := mkBitmap {
  bmWidth : Z;
  bmHeight : Z;
  bmData : list Z
}.

(** What [canvas.toJSON()] serialises: the objects, the background colour
    and the background image.  (The grid guide is [excludeFromExport] and
    is left out of the model.) *)
Record Snapshot : Type := mkSnapshot {
  snObjects : list Path;
  snBackground : option jsstring;
  snBackgroundImage : option Bitmap
}.

(** A [fabric.PencilBrush]. *)
Record Brush : Type := mkBrush {
  brushWidth : Z;
  brushColor : jsstring
}.

(** The [fabric.Canvas] fields the component reads and writes. *)
Record Canvas : Type := mkCanvas {
  width : Z;
  height : Z;
  objects : list Path;
  backgroundColor : option jsstring;      (* [None] is null *)
  backgroundImage : option Bitmap;        (* [None] is null *)
  isDrawingMode : bool;
  freeDrawingBrush : option Brush
}.

Inductive Tool : Type := brush | eraser | fill.

(** The refs and state of DrawPage that the drawing engine uses.
    [toolRef] and [colorRef] mirror [tool] and [color]. *)
Record Stage : Type := mkStage {
  canvas : Canvas;
  tool : Tool;
  color : jsstring;
  size : Z;
  undo : list Snapshot;
  redo : list Snapshot;
  restoring : bool
}.

Definition toJSON (c : Canvas) : Snapshot :=
  mkSnapshot (objects c) (backgroundColor c) (backgroundImage c).

(** [c.loadFromJSON(s, ...)]: the serialised part of the canvas is
    replaced, the rest is kept. *)
Definition loadFromJSON (s : Snapshot) (c : Canvas) : Canvas :=
  mkCanvas (width c) (height c) (snObjects s) (snBackground s)
    (snBackgroundImage s) (isDrawingMode c) (freeDrawingBrush c).

Definition setCanvas (c : Canvas) (st : Stage) : Stage :=
  mkStage c (tool st) (color st) (size st) (undo st) (redo st) (restoring st).

Definition setStacks (u r : list Snapshot) (st : Stage) : Stage :=
  mkStage (canvas st) (tool st) (color st) (size st) u r (restoring st).

Definition setRestoring (b : bool) (st : Stage) : Stage :=
  mkStage (canvas st) (tool st) (color st) (size st) (undo st) (redo st) b.

Definition historyCap : nat := 30.

(** [push()], l.1160. *)
Definition push (st : Stage) : Stage :=
  if restoring st then st
  else
    let u := undo st ++ [toJSON (canvas st)] in
    let u := if (historyCap <? length u)%nat then tail u else u in
    setStacks u [] st.

(** [restore(s)], l.1161.  [loadFromJSON] calls its callback once the
    objects are rebuilt; the model runs it at once, so [restoring] is
    raised and lowered within the call. *)
Definition restore (s : Snapshot) (st : Stage) : Stage :=
  let st := setRestoring true st in
  let st := setCanvas (loadFromJSON s (canvas st)) st in
  setRestoring false st.

(** [handleUndo()], l.1162. *)
Definition handleUndo (st : Stage) : Stage :=
  if (length (undo st) <=? 1)%nat then st
  else
    let u := removelast (undo st) in
    let st :=
      match last (undo st) with
      | Some cur => setStacks u (redo st ++ [cur]) st
      | None => setStacks u (redo st) st
      end in
    match last u with
    | Some prev => restore prev st
    | None => st
    end.

(** [handleRedo()], l.1163. *)
Definition handleRedo (st : Stage) : Stage :=
  match last (redo st) with
  | None => st
  | Some s =>
      restore s (setStacks (undo st ++ [s]) (removelast (redo st)) st)
  end.

Definition white : jsstring := js "#ffffff".

(** [handleClear()], l.1164: every object is removed, the background is
    reset, both stacks are emptied and the cleared state is pushed.  (The
    [push] calls that [object:removed] triggers on the way are wiped by
    the reset of the stacks.) *)
Definition handleClear (st : Stage) : Stage :=
  let c := canvas st in
  let c := mkCanvas (width c) (height c) [] (Some white) None
             (isDrawingMode c) (freeDrawingBrush c) in
  push (setStacks [] [] (setCanvas c st)).

(** [Number(size) || 3]. *)
Definition brushSize (size : Z) : Z := if size =? 0 then 3 else size.

(** [applyBrush()], l.1134. *)
Definition applyBrush (st : Stage) : Stage :=
  let c := canvas st in
  match tool st with
  | fill =>
      setCanvas (mkCanvas (width c) (height c) (objects c)
                   (backgroundColor c) (backgroundImage c) false
                   (freeDrawingBrush c)) st
  | t =>
      let b := mkBrush (brushSize (size st))
                 (match t with eraser => white | _ => color st end) in
      setCanvas (mkCanvas (width c) (height c) (objects c)
                   (backgroundColor c) (backgroundImage c) true (Some b)) st
  end.

(** [setTool] / [setColor] / [setSize] followed by the effect of l.1089,
    which runs [applyBrush] with the new values. *)
Definition setTool (t : Tool) (st : Stage) : Stage :=
  applyBrush (mkStage (canvas st) t (color st) (size st) (undo st) (redo st)
                (restoring st)).

Definition setColor (col : jsstring) (st : Stage) : Stage :=
  applyBrush (mkStage (canvas st) (tool st) col (size st) (undo st) (redo st)
                (restoring st)).

Definition setSize (n : Z) (st : Stage) : Stage :=
  applyBrush (mkStage (canvas st) (tool st) (color st) n (undo st) (redo st)
                (restoring st)).

(** The end of a free-drawing stroke: in drawing mode fabric turns the
    points into a [Path] whose stroke colour and width are the brush's,
    adds it to the canvas and fires [path:created], which calls [push]. *)
Definition strokeDone (pts : list (Z * Z)) (st : Stage) : Stage :=
  let c := canvas st in
  match isDrawingMode c, freeDrawingBrush c with
  | true, Some b =>
      let p := mkPath pts (brushColor b) (brushWidth b) in
      push (setCanvas (mkCanvas (width c) (height c) (objects c ++ [p])
                         (backgroundColor c) (backgroundImage c)
                         (isDrawingMode c) (freeDrawingBrush c)) st)
  | _, _ => st
  end.

(** Any other committed mutation ([object:modified], [object:removed]):
    the serialised content becomes [s], then [push] runs. *)
Definition commit (s : Snapshot) (st : Stage) : Stage :=
  push (setCanvas (loadFromJSON s (canvas st)) st).

(** [floodFillAt(canvas, startX, startY, fillHex)], l.1200.  [pixels] is
    the buffer [getImageData] returns for the rendered canvas.  The image
    built from the filled buffer becomes the background image, the
    background colour is set to null, and [push] runs (the callbacks of
    [fabric.Image.fromURL] and [setBackgroundImage] are run at once). *)
Definition floodFillAt (pixels : list Z) (startX startY : Z)
    (fillHex : jsstring) (st : Stage) : Stage :=
  let c := canvas st in
  match floodFillData (width c) (height c) pixels startX startY
          (hexToRgba fillHex) with
  | Filled d =>
      let bg := mkBitmap (width c) (height c) d in
      push (setCanvas (mkCanvas (width c) (height c) (objects c) None
                         (Some bg) (isDrawingMode c) (freeDrawingBrush c)) st)
  | Skipped | OutOfFuel => st
  end.

(** [onDown], l.1068: a pointer press at canvas point [(x, y)], already
    floored. *)
Definition onDown (pixels : list Z) (x y : Z) (st : Stage) : Stage :=
  match tool st with
  | fill => floodFillAt pixels x y (color st) st
  | _ => st
  end.

(** The canvas built by the mount effect, l.1026. *)
Definition newCanvas : Canvas :=
  mkCanvas 700 700 [] (Some white) None true None.

(** The stage once the mount effect has run: [push(); applyBrush()]. *)
Definition mount : Stage :=
  applyBrush (push (mkStage newCanvas brush (js "#000000") 12 [] [] false)).

(** The user actions on the history. *)
Inductive Action : Type :=
| Commit (s : Snapshot)
| Undo
| Redo.

Definition act (a : Action) (st : Stage) : Stage :=
  match a with
  | Commit s => commit s st
  | Undo => handleUndo st
  | Redo => handleRedo st
  end.

Definition run (acts : list Action) (st : Stage) : Stage :=
  fold_left (fun st a => act a st) acts st.

(** Everything the user can do to the stage: finish a stroke, press the
    pointer on the canvas (with the buffer the canvas renders to at that
    moment), pick a tool, a colour or a size, change or remove an object
    ([object:modified], [object:removed]), and the three buttons. *)
Inductive Gesture : Type :=
| Stroke (pts : list (Z * Z))
| Press (pixels : list Z) (x y : Z)
| PickTool (t : Tool)
| PickColor (col : jsstring)
| PickSize (n : Z)
| Modify (s : Snapshot)
| PressUndo
| PressRedo
| PressClear.

Definition gesture (g : Gesture) (st : Stage) : Stage :=
  match g with
  | Stroke pts => strokeDone pts st
  | Press pixels x y => onDown pixels x y st
  | PickTool t => setTool t st
  | PickColor col => setColor col st
  | PickSize n => setSize n st
  | Modify s => commit s st
  | PressUndo => handleUndo st
  | PressRedo => handleRedo st
  | PressClear => handleClear st
  end.

Definition play (gs : list Gesture) (st : Stage) : Stage :=
  fold_left (fun st g => gesture g st) gs st.

End Stage.

Import Stage.

(** ** The quality gate and the panel collection *)

Module Story.

(** The PNG blob [capture()] returns; only its byte size is read. *)
Record Blob : Type := mkBlob {
  blobSize : Z
}.

(** A panel [{id, url, blob}].  The id is [Date.now()] (plus
    [Math.random()] for an example scene); it is only compared for
    equality, and the model takes it as an integer. *)
Record Frame : Type := mkFrame {
  id : Z;
  url : jsstring;
  blob : Blob
}.

(** The state of DrawPage that the story flow uses.  An entry of
    [frames] is [None] when the array holds [undefined] there. *)
Record Story : Type := mkStory {
  frames : list (option Frame);
  dragIndex : option nat;           (* [None] is null *)
  toast : option string             (* the last message shown *)
}.

Definition show (msg : string) (st : Story) : Story :=
  mkStory (frames st) (dragIndex st) (Some msg).

Definition msgFull : string := "All three frames are filled".
Definition msgEmpty : string := "Draw something first".
Definition msgDetail : string :=
  "I can’t see enough detail yet — add a clear shape or character.".
Definition msgExample : string := "Loaded example scenes".

(** An integer below 2^53 as a double. *)
Definition toFloat (z : Z) : float := PrimFloat.of_uint63 (Uint63.of_Z z).

(** The [for] loop of [measureVarianceFromCanvas], l.1308, over the
    remaining entries of [data], four at a time.  A last group of fewer
    than three entries reads [undefined] and makes the sums NaN. *)
Fixpoint sums (d : list Z) (sum sum2 : float) : float * float :=
  match d with
  | [] => (sum, sum2)
  | r :: g :: b :: _ :: rest =>
      let gr := (toFloat (r + g + b) / toFloat 3)%float in
      sums rest (sum + gr)%float (sum2 + gr * gr)%float
  | [r; g; b] =>
      let gr := (toFloat (r + g + b) / toFloat 3)%float in
      ((sum + gr)%float, (sum2 + gr * gr)%float)
  | _ => (nan, nan)
  end.

(** [Math.max(0, x)]. *)
Definition max0 (x : float) : float :=
  if PrimFloat.is_nan x then x
  else if (0 <? x)%float then x else 0%float.

(** [measureVarianceFromCanvas()], l.1300; [down] is the data of the
    64 x 64 canvas the drawing was scaled into. *)
Definition measureVariance (down : list Z) : float :=
  let '(sum, sum2) := sums down 0%float 0%float in
  let n := toFloat (64 * 64) in
  let mean := (sum / n)%float in
  max0 (sum2 / n - mean * mean)%float.

(** The test of l.1339. *)
Definition tooPlain (b : Blob) (variance : float) : bool :=
  (blobSize b <? 3000) || (variance <? 400)%float.

(** [addToStory()], l.1328, is async.  Up to its [await], l.1329: the
    test on the [frames] of the render whose handler was called; [true]
    when the call shows the message and returns. *)
Definition addFull (st : Story) : bool := (3 <=? length (frames st))%nat.

(** [addToStory()] after [await capture()], l.1334-1346, on the state
    that is current by then: the limit is not tested again.  [b] is the
    result of [capture()] ([None] is null), [down] the 64 x 64 downsample
    of the canvas, [now] the value of [Date.now()] and [u] the object URL
    made for the blob. *)
Definition addResume (b : option Blob) (down : list Z) (now : Z)
    (u : jsstring) (st : Story) : Story :=
  match b with
  | None => show msgEmpty st
  | Some b =>
      if tooPlain b (measureVariance down) then show msgDetail st
      else mkStory (frames st ++ [Some (mkFrame now u b)])
             (dragIndex st) (toast st)
  end.

(** A call of [addToStory()] during whose [await] nothing else is
    handled. *)
Definition addToStory (b : option Blob) (down : list Z) (now : Z)
    (u : jsstring) (st : Story) : Story :=
  if addFull st then show msgFull st else addResume b down now u st.

(** Reading [f.id] or [f.url] on every entry throws on [undefined]. *)
Definition allDefined (p : list (option Frame)) : bool :=
  forallb (fun f => match f with Some _ => true | None => false end) p.

(** [removeFrame(id)], l.1350; [None] when the updater throws. *)
Definition removeFrame (i : Z) (st : Story) : option Story :=
  if allDefined (frames st)
  then Some (mkStory
               (List.filter (fun f => match f with
                                      | Some f => negb (id f =? i)
                                      | None => true
                                      end) (frames st))
               (dragIndex st) (toast st))
  else None.

(** [dragStart(i, has)] as the slot [i] calls it, with
    [has = Boolean(frames[i])]. *)
Definition dragStart (i : nat) (st : Story) : Story :=
  match frames st !! i with
  | Some (Some _) => mkStory (frames st) (Some i) (toast st)
  | _ => st
  end.

(** [n.splice(from, 1)] then [n.splice(to, 0, it)] on a copy of [p]. *)
Definition moveTo (from to : nat) (p : list (option Frame))
    : list (option Frame) :=
  let it := default None (p !! from) in
  let n := delete from p in
  take to n ++ it :: drop to n.

(** When React runs the updater given to [setFrames]: inside the call,
    when it computes the next state at once (the component has no update
    pending), or when it next renders the component, after the handler
    has returned.  React is not part of the repository; the moment is a
    parameter of the model. *)
Inductive Moment : Type := InsideCall | AtRender.

(** [drop(e, i)], l.1353.  The updater reads [dragIndex.current] when it
    runs: inside the call that is still the index [drop] tested; at the
    next render [drop] has already reset it to null, and
    [n.splice(null, 1)] removes the entry at index 0. *)
Definition dropOn (m : Moment) (i : nat) (st : Story) : Story :=
  match dragIndex st with
  | None => st
  | Some d =>
      if (d =? i)%nat then st
      else
        let from := match m with InsideCall => d | AtRender => 0%nat end in
        mkStory (moveTo from i (frames st)) None (toast st)
  end.

(** [tryExample()], l.1283, is async.  After its [await], l.1293-1294,
    with the three frames [urlToFrame] built: the panels are replaced. *)
Definition exampleResume (f1 f2 f3 : Frame) (st : Story) : Story :=
  mkStory [Some f1; Some f2; Some f3] (dragIndex st) (Some msgExample).

(** A call of [tryExample()] during whose [await] nothing else is
    handled; [None] when revoking the old URLs, l.1285, throws. *)
Definition tryExample (f1 f2 f3 : Frame) (st : Story) : option Story :=
  if allDefined (frames st) then Some (exampleResume f1 f2 f3 st) else None.

(** The events of the story flow, each handler running to its end
    before the next event. *)
Inductive Event : Type :=
| Add (b : option Blob) (down : list Z) (now : Z) (u : jsstring)
| Remove (i : Z)
| DragStart (i : nat)
| Drop (m : Moment) (i : nat)
| Example (f1 f2 f3 : Frame).

(** One handler; [None] when it throws. *)
Definition handle (e : Event) (st : Story) : option Story :=
  match e with
  | Add b down now u => Some (addToStory b down now u st)
  | Remove i => removeFrame i st
  | DragStart i => Some (dragStart i st)
  | Drop m i => Some (dropOn m i st)
  | Example f1 f2 f3 => tryExample f1 f2 f3 st
  end.

Fixpoint handleAll (es : list Event) (st : Story) : option Story :=
  match es with
  | [] => Some st
  | e :: es' =>
      match handle e st with
      | Some st' => handleAll es' st'
      | None => None
      end
  end.

(** The async handlers across their [await].  What [addToStory] and
    [tryExample] do before the [await] runs when the button is clicked;
    the rest runs when the promise resolves, and other clicks are handled
    in between (neither button is disabled meanwhile, l.1438, l.1468).
    Beside the state, a page keeps how many calls are at their [await]. *)
Record Page : Type := mkPage {
  story : Story;
  adding : nat;      (* calls of [addToStory] waiting for [capture()] *)
  loading : nat      (* calls of [tryExample] waiting for the scenes *)
}.

Inductive Tick : Type :=
| AddClicked
| Captured (b : option Blob) (down : list Z) (now : Z) (u : jsstring)
| ExampleClicked
| ScenesLoaded (f1 f2 f3 : Frame).

(** One tick; [None] when the handler throws, or when no call is waiting
    for what the tick brings. *)
Definition tick (t : Tick) (p : Page) : option Page :=
  match t with
  | AddClicked =>
      if addFull (story p)
      then Some (mkPage (show msgFull (story p)) (adding p) (loading p))
      else Some (mkPage (story p) (S (adding p)) (loading p))
  | Captured b down now u =>
      match adding p with
      | O => None
      | S n => Some (mkPage (addResume b down now u (story p)) n (loading p))
      end
  | ExampleClicked =>
      if allDefined (frames (story p))
      then Some (mkPage (story p) (adding p) (S (loading p)))
      else None
  | ScenesLoaded f1 f2 f3 =>
      match loading p with
      | O => None
      | S n => Some (mkPage (exampleResume f1 f2 f3 (story p)) (adding p) n)
      end
  end.

Fixpoint ticks (ts : list Tick) (p : Page) : option Page :=
  match ts with
  | [] => Some p
  | t :: ts' =>
      match tick t p with
      | Some p' => ticks ts' p'
      | None => None
      end
  end.

Definition msgThree : string := "Add three drawings".

(** What [navigate('/story', {state: {images, blobs}})] is given. *)
Record Handoff : Type := mkHandoff {
  images : list jsstring;
  blobs : list Blob
}.

(** [createStory()], l.1354: the new state and the hand-off, if the page
    navigates.  The label lookup of l.1358 is inside a [try] whose result
    is dropped; [frames.map(f=>f.blob)] throws on an [undefined] entry, and
    then nothing is handed over. *)
Definition createStory (st : Story) : Story * option Handoff :=
  if negb (length (frames st) =? 3)%nat then (show msgThree st, None)
  else if allDefined (frames st)
       then (st, Some (mkHandoff
                         (omap (fun f => url <$> f) (frames st))
                         (omap (fun f => blob <$> f) (frames st))))
       else (st, None).

(** [useState([])], [useRef(null)], no message yet. *)
Definition initial : Story := mkStory [] None None.

(** A 64 x 64 buffer of one opaque grey level. *)
Definition uniform (v : Z) : list Z :=
  concat (replicate (64 * 64) [v; v; v; 255]).

End Story.

Import Story.

(** ** The word wrap of the saved story image *)

Module Wrap.

(** [s.split(/\s+/)]: the pieces of [s] between its runs of white space;
    a run at the start or at the end gives an empty piece.  [cur] is the
    piece being read, [inWs] tells that a run of white space is being
    skipped. *)
Fixpoint splitWs (cur : jsstring) (inWs : bool) (s : jsstring)
    : list jsstring :=
  match s with
  | [] => [cur]
  | c :: r =>
      if isWhiteSpace c
      then (if inWs then splitWs [] true r else cur :: splitWs [] true r)
      else splitWs (cur ++ [c]) false r
  end.

Definition split (s : jsstring) : list jsstring := splitWs [] false s.

(** [rows.join(' ')]. *)
Fixpoint join (rows : list jsstring) : jsstring :=
  match rows with
  | [] => []
  | [x] => x
  | x :: rest => x ++ 32%N :: join rest
  end.

(** The [for] loop of [wrap], l.1785, on the words still to place.
    [tooWide next] is [measure.measureText(next).width > maxW], which
    depends on the font of the page. *)
Fixpoint wrapLoop (tooWide : jsstring → bool) (words : list jsstring)
    (rows : list jsstring) (line : jsstring) : list jsstring * jsstring :=
  match words with
  | [] => (rows, line)
  | w :: rest =>
      let next := match line with [] => w | _ => line ++ 32%N :: w end in
      if tooWide next
      then wrapLoop tooWide rest
             (match line with [] => rows | _ => rows ++ [line] end) w
      else wrapLoop tooWide rest rows next
  end.

(** [wrap(text, font, maxW)], l.1780. *)
Definition wrap (tooWide : jsstring → bool) (text : jsstring)
    : list jsstring :=
  let '(rows, line) := wrapLoop tooWide (split text) [] [] in
  match line with [] => rows | _ => rows ++ [line] end.

End Wrap.

(** ** The quiz *)

Module Quiz.

(** An entry of the [corrects] array: an empty slot, [undefined], or a
    boolean. *)
Inductive Slot : Type := Hole | Undef | Val (b : bool).

(** A question; only its [answerIndex] is used by the handlers, [None]
    when it is missing or null. *)
Record Question : Type := mkQuestion {
  answerIndex : option Z
}.

(** The state of QuizPage once the questions are loaded. *)
Record Quiz : Type := mkQuiz {
  questions : list Question;
  idx : nat;
  picked : option Z;            (* [None] is null *)
  checked : bool;
  corrects : list Slot;
  allRight : bool
}.

(** [[...prev]]: empty slots become [undefined]. *)
Definition spread (l : list Slot) : list Slot :=
  map (fun s => match s with Hole => Undef | s => s end) l.

(** [next[i] = v] on an array: past the end the array grows, with empty
    slots in between. *)
Definition setAt (i : nat) (v : Slot) (l : list Slot) : list Slot :=
  if (i <? length l)%nat then <[i := v]> l
  else l ++ replicate (i - length l) Hole ++ [v].

(** [next.every(Boolean)]: empty slots are skipped. *)
Definition everyTrue (l : list Slot) : bool :=
  forallb (fun s => match s with Hole => true | Undef => false | Val b => b end) l.

(** The option buttons, l.904: [!checked && setPicked(i)]. *)
Definition pick (i : Z) (q : Quiz) : Quiz :=
  if checked q then q
  else mkQuiz (questions q) (idx q) (Some i) (checked q) (corrects q)
         (allRight q).

(** [confirm()], l.874. *)
Definition confirm (q : Quiz) : Quiz :=
  match picked q with
  | None => q
  | Some p =>
      if checked q then q
      else
        let answer := match questions q !! idx q with
                      | Some (mkQuestion (Some a)) => a
                      | _ => -1
                      end in
        let isRight := p =? answer in
        let next := setAt (idx q) (Val isRight) (spread (corrects q)) in
        mkQuiz (questions q) (idx q) (picked q) true next
          (if (length next =? length (questions q))%nat && everyTrue next
           then true else allRight q)
  end.

(** [next()], l.880, with the effect of l.868 that clears the selection
    when [idx] has changed. *)
Definition next (q : Quiz) : Quiz :=
  if (idx q + 1 <? length (questions q))%nat
  then mkQuiz (questions q) (idx q + 1) None false (corrects q) (allRight q)
  else q.

(** [handleNext()], l.881. *)
Definition handleNext (q : Quiz) : Quiz :=
  match picked q with
  | None => q
  | Some _ => if checked q then next q else confirm q
  end.

(** The clicks on the page. *)
Inductive Click : Type := Choose (i : Z) | Next.

Definition click (c : Click) (q : Quiz) : Quiz :=
  match c with
  | Choose i => pick i q
  | Next => handleNext q
  end.

Definition clicks (cs : list Click) (q : Quiz) : Quiz :=
  fold_left (fun q c => click c q) cs q.

(** The page once [qs] are loaded. *)
Definition start (qs : list Question) : Quiz := mkQuiz qs 0 None false [] false.

End Quiz.

(** * Vocabulary of the properties *)

(** ** The colour parser *)

(** The strings the specification calls hex colours: three or six hex
    digits, with or without a leading #, white space around them. *)
Definition isHexColor (hex : jsstring) : bool :=
  let h := hexBody hex in
  ((length h =? 3)%nat || (length h =? 6)%nat)
  && forallb (fun c => bool_decide (is_Some (hexDigit c))) h.

(** ** The history *)

(** The snapshot of the freshly mounted canvas. *)
Definition blank : Snapshot := toJSON newCanvas.

(** The last [n] entries of a list. *)
Definition lastN {A} (n : nat) (l : list A) : list A :=
  drop (length l - n) l.

(** What holds of the stage between two user actions. *)
Record consistent (st : Stage) : Prop := mkConsistent {
  cons_idle : restoring st = false;
  cons_cap : (length (undo st) + length (redo st) ≤ historyCap)%nat;
  cons_top : last (undo st) = Some (toJSON (canvas st))
}.

(** A scene with one stroke. *)
Definition sketch : Snapshot :=
  mkSnapshot [mkPath [(10, 10); (20, 20)] (js "#000000") 12] (Some white) None.

(** A scene with one stroke through [(n, n)]. *)
Definition scene (n : Z) : Snapshot :=
  mkSnapshot [mkPath [(n, n)] (js "#000000") 12] (Some white) None.

(** The scenes [scene from], [scene (from + 1)], ... *)
Definition scenes (from : Z) (len : nat) : list Snapshot :=
  map scene (seqZ from (Z.of_nat len)).

(** ** The flood fill *)

(** The four stores of l.1247-1250. *)
Definition paint (a : list Z) (di : Z) (c : Rgba) : list Z :=
  aset (aset (aset (aset a di (clamp8 (chR c))) (di + 1) (clamp8 (chG c)))
          (di + 2) (clamp8 (chB c))) (di + 3) (clamp8 (chA c)).

(** What reading the four stores back gives. *)
Definition clamped (c : Rgba) : Sample :=
  (Some (clamp8 (chR c)), Some (clamp8 (chG c)),
   Some (clamp8 (chB c)), Some (clamp8 (chA c))).

(** The channels of a colour as the buffer holds them. *)
Definition colour (c : Rgba) : Sample :=
  (Some (chR c), Some (chG c), Some (chB c), Some (chA c)).

(** Entries of the bitmap that are still 0. *)
Definition unvisited (a : list Z) : nat := length (List.filter (Z.eqb 0) a).

Section RegionOfSeed.

Variables (w h : Z) (orig : list Z) (target : Sample) (fillc : Rgba).
Variables (sx sy : Z).

(** In-bounds points and their pixel index. *)
Definition inb (x y : Z) : Prop := 0 ≤ x < w ∧ 0 ≤ y < h.

Definition idx (x y : Z) : Z := y * w + x.

(** The four channels of pixel [(x, y)] of a buffer. *)
Definition pix (d : list Z) (x y : Z) : Sample := sampleAt d (idx x y * 4).

(** The 4-neighbours of a point. *)
Definition adj (x y x' y' : Z) : Prop :=
  (x' = x + 1 ∧ y' = y) ∨ (x' = x - 1 ∧ y' = y)
  ∨ (x' = x ∧ y' = y + 1) ∨ (x' = x ∧ y' = y - 1).

(** The region of the specification: the in-bounds pixels of the
    original buffer that match the target within the tolerance and are
    joined to the seed by a 4-connected path of such pixels. *)
Inductive region : Z → Z → Prop :=
| region_seed :
    inb sx sy → matches orig target (idx sx sy * 4) = true → region sx sy
| region_step x y x' y' :
    region x y → adj x y x' y' → inb x' y' →
    matches orig target (idx x' y' * 4) = true → region x' y'.

(** One iteration of the loop on a state. *)
Definition step (st : FillState) : FillState :=
  match stack st with
  | (x, y) :: rest =>
      fillBody w h target fillc x y (data st) (visited st) rest
  | [] => st
  end.

(** A point needs no further visit, or is waiting on the stack. *)
Definition settled (st : FillState) (x y : Z) : Prop :=
  (x, y) ∈ stack st ∨ ¬ inb x y ∨ isVisited (visited st) (idx x y) = true
  ∨ matches orig target (idx x y * 4) = false.

(** The invariant of the loop. *)
Record fillInv (st : FillState) : Prop := mkFillInv {
  inv_len_d : length (data st) = length orig;
  inv_len_v : length (visited st) = Z.to_nat (w * h);
  inv_pix : ∀ x y, inb x y →
    if isVisited (visited st) (idx x y)
    then pix (data st) x y = clamped fillc
    else pix (data st) x y = pix orig x y;
  inv_reach : ∀ x y, inb x y →
    isVisited (visited st) (idx x y) = true → region x y;
  inv_stack : ∀ x y, (x, y) ∈ stack st → inb x y →
    matches orig target (idx x y * 4) = true → region x y;
  inv_closed : ∀ x y x' y', inb x y →
    isVisited (visited st) (idx x y) = true → adj x y x' y' →
    settled st x' y';
  inv_seed : settled st sx sy
}.

(** Termination: the stack length plus four times the number of
    unvisited pixels drops by one at every iteration. *)
Definition measure (st : FillState) : nat :=
  (length (stack st) + 4 * unvisited (visited st))%nat.

End RegionOfSeed.

Arguments region_seed {w h orig target sx sy}.
Arguments region_step {w h orig target sx sy} x y x' y'.
Arguments inv_len_d {w h orig target fillc sx sy} st.
Arguments inv_len_v {w h orig target fillc sx sy} st.
Arguments inv_pix {w h orig target fillc sx sy} st.
Arguments inv_reach {w h orig target fillc sx sy} st.
Arguments inv_stack {w h orig target fillc sx sy} st.
Arguments inv_closed {w h orig target fillc sx sy} st.
Arguments inv_seed {w h orig target fillc sx sy} st.

(** The sample read at the seed. *)
Definition seedSample (w : Z) (pixels : list Z) (sx sy : Z) : Sample :=
  sampleAt pixels (idx w sx sy * 4).

(** A [n]-pixel buffer of one colour. *)
Definition solid (n : nat) (c : Rgba) : list Z :=
  concat (replicate n [chR c; chG c; chB c; chA c]).

(** The colour #ff0000. *)
Definition red : jsstring := js "#ff0000".

(** The mounted stage with the fill tool and red selected. *)
Definition fillStage : Stage := setColor red (setTool fill mount).

(** A canvas of the colour #fa0000 but for one pixel of #ff0000 at the
    origin. *)
Definition nearRed : list Z :=
  [255; 0; 0; 255] ++ solid (Z.to_nat (700 * 700 - 1)) (250, 0, 0, 255).

(** A canvas of the colour #fa0000. *)
Definition darkRed : list Z := solid (Z.to_nat (700 * 700)) (250, 0, 0, 255).

(** A white canvas. *)
Definition whitePixels : list Z :=
  solid (Z.to_nat (700 * 700)) (255, 255, 255, 255).

(** A small stage for examples: a [w] x [h] canvas, fill tool, red. *)
Definition smallStage (w h : Z) : Stage :=
  mkStage (mkCanvas w h [] (Some white) None false None) fill red 12
    [blank] [] false.

(** ** The panels *)

(** What the handlers keep true of the panels and the drag index. *)
Definition roomy (st : Story) : Prop :=
  (length (frames st) ≤ 3)%nat
  ∧ ∀ d, dragIndex st = Some d → (d < 3)%nat.

(** An accepted panel with id [n]. *)
Definition panel (n : Z) : Frame := mkFrame n (js "blob:x") (mkBlob 5000).

(** ** The stage between two gestures *)

(** What the tool selection keeps true of the canvas: outside the fill
    tool the canvas is in drawing mode with a brush of the selected size
    and colour (white for the eraser); with the fill tool it is not in
    drawing mode. *)
Definition brushApplied (st : Stage) : Prop :=
  match tool st with
  | fill => isDrawingMode (canvas st) = false
  | t =>
      isDrawingMode (canvas st) = true
      ∧ freeDrawingBrush (canvas st)
        = Some (mkBrush (brushSize (size st))
                  (match t with eraser => white | _ => color st end))
  end.

(** The state of the stage between two gestures. *)
Definition settledStage (st : Stage) : Prop := consistent st ∧ brushApplied st.

(** ** The quality gate *)

(** The grey levels of an RGBA buffer, pixel by pixel: the mean of the
    three colour channels. *)
Fixpoint greys (d : list Z) : list float :=
  match d with
  | r :: g :: b :: _ :: rest =>
      (toFloat (r + g + b) / toFloat 3)%float :: greys rest
  | _ => []
  end.

(** The mean of a list of doubles, summed from left to right. *)
Definition mean (l : list float) : float :=
  (fold_left PrimFloat.add l 0 / toFloat (Z.of_nat (length l)))%float.

(** The pixel intensity variance of the specification: the mean of the
    squared grey levels less the square of their mean. *)
Definition intensityVariance (d : list Z) : float :=
  let g := greys d in
  (mean (map (fun x => x * x) g) - mean g * mean g)%float.

(** A white 64 x 64 buffer with a black shape over its first [k]
    pixels. *)
Definition shape (k : nat) : list Z :=
  concat (replicate k [0; 0; 0; 255])
  ++ concat (replicate (4096 - k) [255; 255; 255; 255]).

(** The two sums of the variance loop after [m] more white pixels. *)
Fixpoint addWhite (m : nat) (a b : float) : float * float :=
  match m with
  | O => (a, b)
  | S m' => addWhite m' (a + 255)%float (b + 65025)%float
  end.

(** Whether sums [a] and [b] over the 4096 pixels fall below 400 as a
    black shape of [k] pixels should: exactly for [k < 26] and
    [4070 < k]. *)
Definition shapeTest (k : nat) (a b : float) : bool :=
  let n := toFloat (64 * 64) in
  Bool.eqb (max0 (b / n - a / n * (a / n)) <? 400)%float
    ((k <? 26)%nat || (4070 <? k)%nat).

(** [shapeTest] on the sums after [m], [m + 1], ... white pixels, for
    [fuel] sizes of shape from [4096 - m] down. *)
Fixpoint shapeScan (fuel m : nat) (a b : float) : bool :=
  match fuel with
  | O => true
  | S fuel' =>
      shapeTest (4096 - m) a b
      && shapeScan fuel' (S m) (a + 255)%float (b + 65025)%float
  end.

(** ** Buffers for the quality gate *)

(** A 64 x 64 buffer of one colour. *)
Definition uniformRgba (r g b a : Z) : list Z :=
  concat (replicate (64 * 64) [r; g; b; a]).

(** A 64 x 64 buffer, black in its first half and white in its second. *)
Definition twoTone : list Z :=
  concat (replicate (32 * 64) [0; 0; 0; 255])
  ++ concat (replicate (32 * 64) [255; 255; 255; 255]).

(** The sums of channels a pixel can have. *)
Definition channelSums : list Z := seqZ 0 766.

(** ** The word wrap *)

(** The rows a state of the wrap loop stands for. *)
Definition wrapOut (rows : list jsstring) (line : jsstring) : list jsstring :=
  match line with [] => rows | _ => rows ++ [line] end.

(** A text that neither starts nor ends with white space. *)
Definition trimmed (text : jsstring) : Prop :=
  (∃ c, head text = Some c ∧ isWhiteSpace c = false)
  ∧ (∃ c, last text = Some c ∧ isWhiteSpace c = false).

(** ** The quiz *)

(** What holds of the quiz on [qs] between two clicks: one verdict, a
    boolean, for each question confirmed so far, and [allRight] set exactly
    when the verdicts are complete and all true. *)
Definition quizInv (qs : list Quiz.Question) (q : Quiz.Quiz) : Prop :=
  Quiz.questions q = qs
  ∧ length (Quiz.corrects q)
    = (Quiz.idx q + if Quiz.checked q then 1 else 0)%nat
  ∧ Forall (λ s, ∃ b, s = Quiz.Val b) (Quiz.corrects q)
  ∧ ((Quiz.idx q < length qs)%nat ∨ (qs = [] ∧ Quiz.idx q = 0%nat))
  ∧ (Quiz.checked q = true → is_Some (Quiz.picked q))
  ∧ Quiz.allRight q
    = (0 <? length qs)%nat
      && (length (Quiz.corrects q) =? length qs)%nat
      && Quiz.everyTrue (Quiz.corrects q).

(** * Properties *)

(** ** The colour parser *)

Section HexToRgba.

Example hexToRgba_red : hexToRgba (js "#ff0000") = (255, 0, 0, 255).
Proof. reflexivity. Qed.

Example hexToRgba_short : hexToRgba (js " #1aF ") = (17, 170, 255, 255).
Proof. reflexivity. Qed.

Example hexToRgba_garbage : hexToRgba (js "zzzzzz") = opaqueBlack.
Proof. reflexivity. Qed.

Lemma hexDigit_plain (c : N) :
  is_Some (hexDigit c) → isWhiteSpace c = false ∧ c ≠ 35%N.
Proof.
  unfold hexDigit, isWhiteSpace. intros [d Hd].
  repeat match type of Hd with
         | (if ?b then _ else _) = _ => destruct b eqn:?
         end; try discriminate;
    repeat match goal with
           | H : (_ && _)%bool = true |- _ => apply andb_true_iff in H as [? ?]
           | H : (_ <=? _)%N = true |- _ => apply N.leb_le in H
           end;
    (split; [| lia]);
    repeat (apply orb_false_iff; split);
    try (apply N.eqb_neq; lia);
    try (apply andb_false_iff; first [left; apply N.leb_gt; lia
                                     | right; apply N.leb_gt; lia]).
Qed.

Lemma trim_ends (a c : N) (mid : jsstring) :
  isWhiteSpace a = false → isWhiteSpace c = false →
  trim (a :: mid ++ [c]) = a :: mid ++ [c].
Proof.
  intros Ha Hc. unfold trim, trimEnd. cbn [trimStart]. rewrite Ha.
  change (a :: mid ++ [c]) with ((a :: mid) ++ [c]).
  rewrite rev_app_distr. change (rev [c]) with [c].
  cbn [app trimStart]. rewrite Hc.
  change (c :: rev (a :: mid)) with ([c] ++ rev (a :: mid)).
  rewrite rev_app_distr, rev_involutive. reflexivity.
Qed.

Lemma hexToRgba_alpha (hex : jsstring) : chA (hexToRgba hex) = 255.
Proof.
  unfold hexToRgba. destruct (trim hex) as [|c r]; [reflexivity |].
  match goal with |- context [negb ?b] => destruct b end; reflexivity.
Qed.

Lemma hexToRgba_bad_length (hex : jsstring) :
  length (hexBody hex) ≠ 3%nat → length (hexBody hex) ≠ 6%nat →
  hexToRgba hex = opaqueBlack.
Proof.
  unfold hexBody, hexToRgba. intros H3 H6.
  destruct (trim hex) as [|c r]; [reflexivity |]. cbv zeta.
  match goal with
  | |- context [(length ?h =? 3)%nat] =>
      change (length h ≠ 3%nat) in H3; change (length h ≠ 6%nat) in H6;
      destruct (Nat.eqb_spec (length h) 3); [done |];
      destruct (Nat.eqb_spec (length h) 6); [done | reflexivity]
  end.
Qed.

Lemma hexToRgba_shorthand_plain (a b c : N) :
  isWhiteSpace a = false → a ≠ 35%N → isWhiteSpace c = false →
  hexToRgba [a; b; c] = hexToRgba [a; a; b; b; c; c]
  ∧ hexToRgba (35%N :: [a; b; c]) = hexToRgba (35%N :: [a; a; b; b; c; c]).
Proof.
  intros Ha Hn Hc.
  assert (Hh : isWhiteSpace 35 = false) by reflexivity.
  unfold hexToRgba.
  pose proof (trim_ends a c [b] Ha Hc) as E1.
  pose proof (trim_ends a c [a; b; b; c] Ha Hc) as E2.
  pose proof (trim_ends 35 c [a; b] Hh Hc) as E3.
  pose proof (trim_ends 35 c [a; a; b; b; c] Hh Hc) as E4.
  cbn [app] in E1, E2, E3, E4. rewrite E1, E2, E3, E4.
  assert (Hm : ∀ r : jsstring,
             match a :: r with 35%N :: r0 => r0 | _ => a :: r end = a :: r).
  { intros r. destruct a as [|p]; [reflexivity |].
    do 6 (destruct p as [p|p|]; try reflexivity). congruence. }
  rewrite !Hm. split; reflexivity.
Qed.

End HexToRgba.

(** ** The history stacks *)

Section History.

Implicit Types (st : Stage) (s : Snapshot) (acts : list Action).

Lemma toJSON_loadFromJSON s (c : Canvas) : toJSON (loadFromJSON s c) = s.
Proof. destruct s; reflexivity. Qed.

Lemma loadFromJSON_toJSON (c : Canvas) : loadFromJSON (toJSON c) c = c.
Proof. destruct c; reflexivity. Qed.

Lemma lastN_short {A} (n : nat) (l : list A) :
  (length l ≤ n)%nat → lastN n l = l.
Proof. intros H. unfold lastN. by replace (length l - n)%nat with 0%nat by lia. Qed.

Lemma lastN_app {A} (n : nat) (l l' : list A) :
  lastN n (lastN n l ++ l') = lastN n (l ++ l').
Proof.
  unfold lastN. rewrite <- (drop_app_le l l') by lia.
  rewrite drop_drop. f_equal. rewrite !length_drop, !length_app. lia.
Qed.

Lemma push_idle st :
  restoring st = false →
  push st = setStacks (lastN historyCap (undo st ++ [toJSON (canvas st)])) [] st
  ∨ (historyCap < length (undo st))%nat.
Proof.
  intros Hr. unfold push. rewrite Hr.
  destruct (Nat.ltb_spec historyCap (length (undo st ++ [toJSON (canvas st)])))
    as [Hlt | Hle].
  - rewrite length_app in Hlt. cbn in Hlt.
    destruct (decide (length (undo st) = historyCap)) as [E | NE]; [| right; lia].
    left. f_equal. unfold lastN. rewrite length_app. cbn [length].
    replace (length (undo st) + 1 - historyCap)%nat with 1%nat by lia.
    by destruct (undo st).
  - left. by rewrite lastN_short.
Qed.

Lemma push_stacks st :
  restoring st = false → (length (undo st) ≤ historyCap)%nat →
  undo (push st) = lastN historyCap (undo st ++ [toJSON (canvas st)])
  ∧ redo (push st) = [] ∧ canvas (push st) = canvas st
  ∧ restoring (push st) = false.
Proof.
  intros Hr Hl. destruct (push_idle st Hr) as [-> | ?]; [| lia]. by cbn.
Qed.

Lemma lastN_snoc_top {A} (n : nat) (l : list A) (x : A) :
  (0 < n)%nat → last (lastN n (l ++ [x])) = Some x.
Proof.
  intros Hn. unfold lastN. rewrite length_app. cbn [length].
  rewrite drop_app_le by lia. apply last_snoc.
Qed.

Lemma length_lastN {A} (n : nat) (l : list A) :
  length (lastN n l) = Nat.min n (length l).
Proof. unfold lastN. rewrite length_drop. lia. Qed.

Lemma commit_stacks s st :
  restoring st = false → (length (undo st) ≤ historyCap)%nat →
  undo (commit s st) = lastN historyCap (undo st ++ [s])
  ∧ redo (commit s st) = []
  ∧ toJSON (canvas (commit s st)) = s
  ∧ restoring (commit s st) = false.
Proof.
  intros Hr Hl. unfold commit.
  set (st1 := setCanvas _ st).
  destruct (push_stacks st1) as (Hu & Hre & Hc & Hi); [done | done |].
  rewrite Hu, Hre, Hc, Hi. cbn. by rewrite toJSON_loadFromJSON.
Qed.

Lemma commit_consistent s st : consistent st → consistent (commit s st).
Proof.
  intros [Hr Hc Ht].
  destruct (commit_stacks s st) as (Hu & Hre & Hcv & Hi); [done | lia |].
  split; [done | |].
  - rewrite Hu, Hre, length_lastN, length_app. cbn [length]. lia.
  - rewrite Hu, Hcv. apply lastN_snoc_top. unfold historyCap. lia.
Qed.

Lemma handleUndo_floor st :
  (length (undo st) ≤ 1)%nat → handleUndo st = st.
Proof.
  intros H. unfold handleUndo.
  by destruct (Nat.leb_spec (length (undo st)) 1); [| lia].
Qed.

Lemma handleUndo_pop st (u : list Snapshot) (p c : Snapshot) :
  undo st = u ++ [p; c] →
  handleUndo st = restore p (setStacks (u ++ [p]) (redo st ++ [c]) st).
Proof.
  intros E. unfold handleUndo. rewrite E.
  destruct (Nat.leb_spec (length (u ++ [p; c])) 1) as [H | _].
  { rewrite length_app in H. cbn in H. lia. }
  replace (u ++ [p; c]) with ((u ++ [p]) ++ [c]) by by rewrite <- app_assoc.
  rewrite removelast_last, !last_snoc. reflexivity.
Qed.

Lemma handleRedo_empty st : redo st = [] → handleRedo st = st.
Proof. intros E. unfold handleRedo. by rewrite E. Qed.

Lemma handleRedo_pop st (r : list Snapshot) (s : Snapshot) :
  redo st = r ++ [s] →
  handleRedo st = restore s (setStacks (undo st ++ [s]) r st).
Proof.
  intros E. unfold handleRedo. by rewrite E, last_snoc, removelast_last.
Qed.

Lemma two_last {A} (l : list A) :
  (2 ≤ length l)%nat → ∃ u p c, l = u ++ [p; c].
Proof.
  intros H. destruct (rev l) as [|c [|p u]] eqn:E;
    apply (f_equal (@rev A)) in E; rewrite rev_involutive in E; subst l;
    cbn in H; try lia.
  exists (rev u), p, c. cbn. by rewrite <- app_assoc.
Qed.

Lemma handleUndo_consistent st : consistent st → consistent (handleUndo st).
Proof.
  intros [Hr Hc Ht].
  destruct (Nat.le_gt_cases (length (undo st)) 1) as [H | H].
  { by rewrite handleUndo_floor. }
  destruct (two_last (undo st)) as (u & p & c & E); [lia |].
  rewrite (handleUndo_pop st u p c E). split; cbn.
  - done.
  - rewrite E in Hc. rewrite !length_app in *. cbn in *. lia.
  - by rewrite last_snoc, toJSON_loadFromJSON.
Qed.

Lemma handleRedo_consistent st : consistent st → consistent (handleRedo st).
Proof.
  intros [Hr Hc Ht].
  destruct (last (redo st)) as [s|] eqn:E.
  - apply last_Some in E as [r E]. rewrite (handleRedo_pop st r s E).
    split; cbn.
    + done.
    + rewrite E in Hc. rewrite !length_app in *. cbn in *. lia.
    + by rewrite last_snoc, toJSON_loadFromJSON.
  - apply last_None in E. by rewrite handleRedo_empty.
Qed.

Lemma mount_consistent : consistent mount.
Proof. split; cbn; [done | unfold historyCap; lia | done]. Qed.

Lemma run_consistent acts st : consistent st → consistent (run acts st).
Proof.
  revert st. induction acts as [|a acts IH]; intros st H; [done |].
  cbn. apply IH. destruct a; cbn;
    auto using commit_consistent, handleUndo_consistent, handleRedo_consistent.
Qed.

Lemma run_app acts acts' st : run (acts ++ acts') st = run acts' (run acts st).
Proof. unfold run. apply fold_left_app. Qed.

End History.

Section HistoryLaws.

Implicit Types (st : Stage) (s : Snapshot) (acts : list Action).

Lemma commits_stack (ss : list Snapshot) st :
  consistent st →
  undo (run (map Commit ss) st) = lastN historyCap (undo st ++ ss).
Proof.
  revert st. induction ss as [|s ss IH]; intros st H.
  - cbn. rewrite app_nil_r, lastN_short; [done |]. destruct H. lia.
  - cbn [map run fold_left act]. fold (run (map Commit ss) (commit s st)).
    rewrite IH by by apply commit_consistent.
    destruct H as [Hr Hc _].
    destruct (commit_stacks s st) as (-> & _); [done | lia |].
    rewrite lastN_app, <- app_assoc. reflexivity.
Qed.

Lemma undos_stack (k : nat) st :
  consistent st →
  undo (run (replicate k Undo) st)
  = take (length (undo st) - Nat.min k (length (undo st) - 1)) (undo st).
Proof.
  revert st. induction k as [|k IH]; intros st H.
  - cbn. rewrite Nat.sub_0_r. by rewrite firstn_all.
  - cbn [replicate run fold_left act]. fold (run (replicate k Undo) (handleUndo st)).
    rewrite IH by by apply handleUndo_consistent.
    destruct (Nat.le_gt_cases (length (undo st)) 1) as [Hl | Hl].
    + rewrite handleUndo_floor by done. f_equal. lia.
    + destruct (two_last (undo st)) as (u & p & c & E); [lia |].
      rewrite (handleUndo_pop st u p c E). cbn [undo restore setRestoring setCanvas setStacks].
      rewrite E. replace (u ++ [p; c]) with ((u ++ [p]) ++ [c]) by by rewrite <- app_assoc.
      rewrite (take_app_le (u ++ [p]) [c]).
      * f_equal. rewrite !length_app. cbn [length]. lia.
      * rewrite !length_app. cbn [length]. lia.
Qed.

(** The scene shown is always the top of the undo stack. *)
Lemma shown_is_top acts :
  last (undo (run acts mount)) = Some (toJSON (canvas (run acts mount))).
Proof. apply (run_consistent acts mount mount_consistent). Qed.

(** C2. After any sequence of commits, undos and redos from the mounted
    stage the undo stack holds at most 30 snapshots; a commit on a full
    stack drops the oldest entry and appends the new one; after 35 further
    commits the stack is exactly the 30 most recent snapshots, and any
    number of undos from there leaves a non-empty prefix of those 30, whose
    top is the scene shown: the 5 oldest are out of reach. *)
Theorem undo_stack_capped acts (ss : list Snapshot) s (k : nat) :
  let st := run acts mount in
  (length (undo st) ≤ historyCap)%nat
  ∧ (length (undo st) = historyCap →
     undo (commit s st) = tail (undo st) ++ [s])
  ∧ (length ss = 35%nat →
     let st' := run (map Commit ss) st in
     let st'' := run (replicate k Undo) st' in
     undo st' = drop 5 ss
     ∧ undo st'' = take (30 - Nat.min k 29) (drop 5 ss)
     ∧ last (undo st'') = Some (toJSON (canvas st''))).
Proof.
  intros st.
  assert (Hst : consistent st) by apply run_consistent, mount_consistent.
  pose proof Hst as [Hr Hc Ht].
  split; [lia |]. split.
  - intros Hfull.
    destruct (commit_stacks s st) as (-> & _); [done | lia |].
    unfold lastN. rewrite length_app, Hfull. cbn [length].
    replace (historyCap + 1 - historyCap)%nat with 1%nat by lia.
    destruct (undo st); [discriminate | reflexivity].
  - intros Hss st' st''.
    assert (Hst' : consistent st') by by apply run_consistent.
    assert (Hu : undo st' = drop 5 ss).
    { unfold st'. rewrite commits_stack by done. unfold lastN.
      rewrite length_app, Hss.
      replace (length (undo st) + 35 - historyCap)%nat
        with (length (undo st) + 5)%nat by (unfold historyCap; lia).
      rewrite <- drop_drop, drop_app_length. reflexivity. }
    split; [done |]. split.
    + unfold st''. rewrite undos_stack by done. rewrite Hu, length_drop, Hss.
      reflexivity.
    + apply run_consistent. done.
Qed.

(** C3, as stated, fails where the undo is a no-op and the redo stack is
    not empty: after one commit and one undo, a second undo does nothing
    and the redo that follows brings the committed scene back instead of
    the scene shown before that second undo. *)
Lemma redo_after_noop_undo_differs :
  let st := run [Commit sketch; Undo] mount in
  toJSON (canvas st) = blank
  ∧ handleUndo st = st
  ∧ toJSON (canvas (handleRedo (handleUndo st))) = sketch
  ∧ toJSON (canvas (handleRedo (handleUndo st))) ≠ toJSON (canvas st).
Proof. cbn. repeat split; discriminate. Qed.

(** C3 (amended). From any stage reached from the mounted one whose undo
    stack holds at least two snapshots (so that the undo is not a no-op),
    or whose redo stack is empty, redo right after undo gives back the
    very same stage: the scene shown before the undo and both stacks.
    Every commit empties the redo stack, and redo stays a no-op through
    any further commits and redos, until an undo. *)
Theorem redo_undoes_undo acts acts' s :
  let st := run acts mount in
  ((2 ≤ length (undo st))%nat ∨ redo st = [] →
   handleRedo (handleUndo st) = st)
  ∧ redo (commit s st) = []
  ∧ handleRedo (commit s st) = commit s st
  ∧ (Forall (λ a, a ≠ Undo) acts' →
     redo (run acts' (commit s st)) = []).
Proof.
  intros st.
  assert (Hst : consistent st) by apply run_consistent, mount_consistent.
  pose proof Hst as [Hr Hc Ht].
  assert (Hre : redo (commit s st) = []).
  { by destruct (commit_stacks s st) as (_ & -> & _); [| lia |]. }
  split; [| split; [done | split]].
  - intros H2.
    destruct (Nat.le_gt_cases (length (undo st)) 1) as [H1 | H1].
    { destruct H2 as [H2 | H2]; [lia |].
      by rewrite handleUndo_floor, handleRedo_empty. }
    destruct (two_last (undo st)) as (u & p & c & E); [lia |].
    rewrite (handleUndo_pop st u p c E).
    rewrite (handleRedo_pop _ (redo st) c) by reflexivity.
    rewrite E in Ht. replace (u ++ [p; c]) with ((u ++ [p]) ++ [c]) in Ht, E
      by by rewrite <- app_assoc.
    rewrite last_snoc in Ht. injection Ht as ->.
    destruct st as [cv ? ? ? ? ? ?]. cbn in *. subst.
    by destruct cv.
  - by apply handleRedo_empty.
  - generalize (commit s st) Hre. clear.
    induction acts' as [|a acts' IH]; intros st0 Hre Hno; [done |].
    apply Forall_cons in Hno as [Ha Hno].
    cbn [run fold_left]. fold (run acts' (act a st0)). apply IH; [| done].
    destruct a as [s' | |]; cbn [act]; [| done |].
    + unfold commit, push. by case_match.
    + by rewrite handleRedo_empty.
Qed.

(** C4. After [N < 30] commits from the mounted stage, [k] undos leave
    the first [N + 1 - k] snapshots on the undo stack (never fewer than
    the floor snapshot) and show the one on top, which is the snapshot
    taken [k] commits earlier; [N] undos show the initial blank scene.
    An undo on a stack of at most one entry changes nothing. *)
Theorem undo_round_trip (ss : list Snapshot) (k : nat) st :
  ((length ss < 30)%nat →
   let st' := run (replicate k Undo) (run (map Commit ss) mount) in
   undo st' = take (S (length ss - k)) (blank :: ss)
   ∧ (blank :: ss) !! (length ss - k)%nat = Some (toJSON (canvas st'))
   ∧ ((length ss ≤ k)%nat → toJSON (canvas st') = blank ∧ undo st' = [blank]))
  ∧ ((length (undo st) ≤ 1)%nat → handleUndo st = st).
Proof.
  split; [| apply handleUndo_floor].
  intros Hn st'.
  assert (Hc : consistent (run (map Commit ss) mount))
    by apply run_consistent, mount_consistent.
  assert (Hu : undo (run (map Commit ss) mount) = blank :: ss).
  { rewrite commits_stack by apply mount_consistent.
    apply lastN_short. cbn. unfold historyCap. lia. }
  assert (Hst' : consistent st') by by apply run_consistent.
  assert (Hu' : undo st' = take (S (length ss - k)) (blank :: ss)).
  { unfold st'. rewrite undos_stack by done. rewrite Hu. f_equal.
    cbn [length]. lia. }
  assert (Hshown : (blank :: ss) !! (length ss - k)%nat
                   = Some (toJSON (canvas st'))).
  { destruct Hst' as [_ _ Ht]. rewrite Hu' in Ht.
    rewrite last_lookup in Ht. rewrite lookup_take_lt in Ht.
    - rewrite <- Ht. f_equal. rewrite length_take. cbn [length]. lia.
    - rewrite length_take. cbn [length]. lia. }
  split; [done |]. split; [done |].
  intros Hk. replace (length ss - k)%nat with 0%nat in * by lia.
  cbn in Hshown. split; [congruence | done].
Qed.

End HistoryLaws.

(** ** Typed arrays *)

Section Arrays.

Implicit Types (a : list Z) (i j v : Z).

Lemma length_aset a i v : length (aset a i v) = length a.
Proof. unfold aset. case_match; [done | apply length_insert]. Qed.

Lemma aget_aset_eq a i v :
  0 ≤ i → (Z.to_nat i < length a)%nat → aget (aset a i v) i = Some v.
Proof.
  intros H0 Hl. unfold aget, aset.
  destruct (Z.ltb_spec i 0); [lia |]. by apply list_lookup_insert_eq.
Qed.

Lemma aget_aset_ne a i j v : i ≠ j → aget (aset a i v) j = aget a j.
Proof.
  intros Hne. unfold aget, aset.
  destruct (Z.ltb_spec j 0); [done |].
  destruct (Z.ltb_spec i 0); [done |].
  apply list_lookup_insert_ne. lia.
Qed.

Lemma aget_Some a i v : aget a i = Some v → 0 ≤ i ∧ (Z.to_nat i < length a)%nat.
Proof.
  unfold aget. destruct (Z.ltb_spec i 0); [done |].
  intros H'. apply lookup_lt_Some in H'. lia.
Qed.

Lemma aget_in_range a i :
  0 ≤ i → (Z.to_nat i < length a)%nat → is_Some (aget a i).
Proof.
  intros H0 Hl. unfold aget. destruct (Z.ltb_spec i 0); [lia |].
  by apply lookup_lt_is_Some.
Qed.

Lemma length_paint a di c : length (paint a di c) = length a.
Proof. unfold paint. by rewrite !length_aset. Qed.

Lemma sampleAt_paint_eq a di c :
  0 ≤ di → (Z.to_nat (di + 3) < length a)%nat →
  sampleAt (paint a di c) di = clamped c.
Proof.
  intros H0 Hl. unfold sampleAt, paint, clamped.
  repeat first
    [ rewrite aget_aset_eq by (rewrite ?length_aset; lia)
    | rewrite aget_aset_ne by lia ].
  reflexivity.
Qed.

Lemma sampleAt_paint_ne a di dj c :
  (dj + 3 < di ∨ di + 3 < dj) → sampleAt (paint a di c) dj = sampleAt a dj.
Proof.
  intros Hne. unfold sampleAt, paint.
  by rewrite !aget_aset_ne by lia.
Qed.

Lemma isVisited_aset_eq a i :
  0 ≤ i → (Z.to_nat i < length a)%nat → isVisited (aset a i 1) i = true.
Proof. intros H0 Hl. unfold isVisited. by rewrite aget_aset_eq. Qed.

Lemma isVisited_aset_ne a i j : i ≠ j → isVisited (aset a i 1) j = isVisited a j.
Proof. intros Hne. unfold isVisited. by rewrite aget_aset_ne. Qed.

Lemma isVisited_aset_mono a i j :
  isVisited a j = true → isVisited (aset a i 1) j = true.
Proof.
  intros Hv. destruct (decide (i = j)) as [-> | Hne].
  - unfold isVisited in Hv. destruct (aget a j) as [b|] eqn:E; [| done].
    apply aget_Some in E as [? ?]. by apply isVisited_aset_eq.
  - by rewrite isVisited_aset_ne.
Qed.

Lemma unvisited_insert a (n : nat) :
  a !! n = Some 0 → S (unvisited (<[n := 1]> a)) = unvisited a.
Proof.
  revert n. induction a as [|b a IH]; intros [|n] H; try done.
  - cbn in H. injection H as ->. reflexivity.
  - cbn in H. unfold unvisited in *. cbn [insert list_insert List.filter].
    fold (@insert nat Z (list Z) _ n 1 a).
    destruct (0 =? b); cbn [length]; by rewrite <- (IH n H).
Qed.

Lemma unvisited_replicate (n : nat) : unvisited (replicate n 0) = n.
Proof. induction n as [|n IH]; [done |]. unfold unvisited in *. cbn. by rewrite IH. Qed.

Lemma matches_sample a (t : Sample) i :
  matches a t i
  = (let '(t0, t1, t2, t3) := t in
     let '(s0, s1, s2, s3) := sampleAt a i in
     near s0 t0 && near s1 t1 && near s2 t2 && near s3 t3).
Proof. by destruct t as [[[? ?] ?] ?]. Qed.

End Arrays.

(** ** The flood-fill loop *)

Section FloodFill.

Variables (w h : Z) (orig : list Z) (target : Sample) (fillc : Rgba).
Variables (sx sy : Z).

Lemma idx_range x y : inb w h x y → 0 ≤ idx w x y < w * h.
Proof. unfold inb, idx. nia. Qed.

Lemma idx_inj x y x' y' :
  inb w h x y → inb w h x' y' → idx w x y = idx w x' y' → x = x' ∧ y = y'.
Proof. unfold inb, idx. intros ? ? ?. assert (y = y') by nia. subst. lia. Qed.

Lemma inb_dec x y :
  (x <? 0) || (y <? 0) || (x >=? w) || (y >=? h) = false ↔ inb w h x y.
Proof. unfold inb. rewrite !orb_false_iff. lia. Qed.

Lemma matches_pix d d' x y :
  pix w d x y = pix w d' x y →
  matches d target (idx w x y * 4) = matches d' target (idx w x y * 4).
Proof. intros E. rewrite !matches_sample. unfold pix in E. by rewrite E. Qed.

Lemma step_skip st x y rest :
  stack st = (x, y) :: rest →
  (¬ inb w h x y ∨ isVisited (visited st) (idx w x y) = true
   ∨ matches (data st) target (idx w x y * 4) = false) →
  step w h target fillc st = mkFillState (data st) (visited st) rest.
Proof.
  intros E Hs. unfold step, fillBody. rewrite E. fold (idx w x y).
  destruct ((x <? 0) || (y <? 0) || (x >=? w) || (y >=? h)) eqn:Eb; [done |].
  apply inb_dec in Eb.
  destruct (isVisited (visited st) (idx w x y)) eqn:Ev; [done |].
  destruct (matches (data st) target (idx w x y * 4)) eqn:Em; [| done].
  by destruct Hs as [? | [? | ?]].
Qed.

Lemma step_colour st x y rest :
  stack st = (x, y) :: rest → inb w h x y →
  isVisited (visited st) (idx w x y) = false →
  matches (data st) target (idx w x y * 4) = true →
  step w h target fillc st = mkFillState (paint (data st) (idx w x y * 4) fillc)
              (aset (visited st) (idx w x y) 1)
              ((x, y - 1) :: (x, y + 1) :: (x - 1, y) :: (x + 1, y) :: rest).
Proof.
  intros E Hb Hv Hm. unfold step, fillBody. rewrite E. fold (idx w x y).
  apply inb_dec in Hb. by rewrite Hb, Hv, Hm.
Qed.

(** Every iteration is one of the two. *)
Lemma step_cases st x y rest :
  stack st = (x, y) :: rest →
  (step w h target fillc st = mkFillState (data st) (visited st) rest
   ∧ (¬ inb w h x y ∨ isVisited (visited st) (idx w x y) = true
      ∨ matches (data st) target (idx w x y * 4) = false))
  ∨ (step w h target fillc st = mkFillState (paint (data st) (idx w x y * 4) fillc)
                 (aset (visited st) (idx w x y) 1)
                 ((x, y - 1) :: (x, y + 1) :: (x - 1, y) :: (x + 1, y) :: rest)
     ∧ inb w h x y ∧ isVisited (visited st) (idx w x y) = false
     ∧ matches (data st) target (idx w x y * 4) = true).
Proof.
  intros E.
  destruct ((x <? 0) || (y <? 0) || (x >=? w) || (y >=? h)) eqn:Eb.
  { left. assert (¬ inb w h x y) by (rewrite <- inb_dec; congruence).
    split; [apply (step_skip st x y rest E) |]; auto. }
  apply inb_dec in Eb.
  destruct (isVisited (visited st) (idx w x y)) eqn:Ev.
  { left. split; [apply (step_skip st x y rest E) |]; auto. }
  destruct (matches (data st) target (idx w x y * 4)) eqn:Em.
  - right. split; [by apply step_colour | done].
  - left. split; [apply (step_skip st x y rest E) |]; auto.
Qed.

Lemma settled_skip st x y rest qx qy :
  fillInv w h orig target fillc sx sy st → stack st = (x, y) :: rest →
  (¬ inb w h x y ∨ isVisited (visited st) (idx w x y) = true
   ∨ matches (data st) target (idx w x y * 4) = false) →
  settled w h orig target st qx qy →
  settled w h orig target (mkFillState (data st) (visited st) rest) qx qy.
Proof.
  intros Hi E Hs [Hin | Hrest]; [| by right].
  rewrite E in Hin. apply elem_of_cons in Hin as [[= -> ->] | Hin]; [| by left].
  right. cbn [visited].
  destruct Hs as [Hn | [Hv | Hm]]; [left; exact Hn | right; left; exact Hv |].
  destruct (decide (inb w h x y)) as [Hb | Hn]; [| left; exact Hn].
  right. pose proof (inv_pix st Hi x y Hb) as Hp.
  destruct (isVisited (visited st) (idx w x y)); [by left | right].
  by rewrite <- (matches_pix _ _ _ _ Hp).
Qed.

Lemma settled_colour st x y rest qx qy :
  fillInv w h orig target fillc sx sy st → stack st = (x, y) :: rest → inb w h x y →
  settled w h orig target st qx qy →
  settled w h orig target (mkFillState (paint (data st) (idx w x y * 4) fillc)
             (aset (visited st) (idx w x y) 1)
             ((x, y - 1) :: (x, y + 1) :: (x - 1, y) :: (x + 1, y) :: rest))
    qx qy.
Proof.
  intros Hi E Hb [Hin | [? | [Hv | ?]]].
  - rewrite E in Hin. apply elem_of_cons in Hin as [[= -> ->] | Hin].
    + right; right; left. cbn. apply isVisited_aset_eq.
      * pose proof (idx_range x y Hb). lia.
      * rewrite (inv_len_v st Hi). pose proof (idx_range x y Hb). lia.
    + left. cbn. rewrite !elem_of_cons. auto.
  - by right; left.
  - right; right; left. cbn. by apply isVisited_aset_mono.
  - by right; right; right.
Qed.

Lemma step_decreases st :
  stack st ≠ [] → length (visited st) = Z.to_nat (w * h) →
  S (measure (step w h target fillc st)) = measure st
  ∧ length (visited (step w h target fillc st)) = Z.to_nat (w * h).
Proof.
  intros Hne Hl. destruct (stack st) as [|[x y] rest] eqn:E; [done |].
  destruct (step_cases st x y rest E) as [[-> _] | (-> & Hb & Hv & _)].
  - unfold measure. rewrite E. cbn [stack visited length]. split; [lia | done].
  - unfold measure. rewrite E. cbn [stack visited length].
    rewrite length_aset. split; [| done].
    pose proof (idx_range x y Hb) as Hr.
    assert (Hz : visited st !! Z.to_nat (idx w x y) = Some 0).
    { destruct (aget_in_range (visited st) (idx w x y)) as [b Hb']; [lia | lia |].
      unfold isVisited in Hv. rewrite Hb' in Hv.
      apply negb_false_iff, Z.eqb_eq in Hv. subst b.
      unfold aget in Hb'. by destruct (Z.ltb_spec (idx w x y) 0); [lia |]. }
    unfold aset. destruct (Z.ltb_spec (idx w x y) 0); [lia |].
    rewrite <- (unvisited_insert _ _ Hz). lia.
Qed.

Lemma floodLoop_unfold (n : nat) st :
  floodLoop (S n) w h target fillc st
  = match stack st with
    | [] => Some st
    | _ :: _ => floodLoop n w h target fillc (step w h target fillc st)
    end.
Proof. unfold step. cbn [floodLoop]. by destruct (stack st) as [|[x y] rest]. Qed.

Lemma iterate_unfold (n : nat) st :
  iterate (S n) w h target fillc st
  = match stack st with
    | [] => st
    | _ :: _ => iterate n w h target fillc (step w h target fillc st)
    end.
Proof. unfold step. cbn [iterate]. by destruct (stack st) as [|[x y] rest]. Qed.

Lemma floodLoop_terminates (fuel : nat) st :
  length (visited st) = Z.to_nat (w * h) → (measure st ≤ fuel)%nat →
  ∃ st', floodLoop fuel w h target fillc st = Some st' ∧ stack st' = [].
Proof.
  revert st. induction fuel as [|n IH]; intros st Hl Hm.
  - exists st. unfold measure in Hm.
    destruct (stack st) eqn:E; cbn in Hm; [| lia]. cbn. by rewrite E.
  - rewrite floodLoop_unfold. destruct (stack st) as [|p rest] eqn:E.
    + by exists st.
    + destruct (step_decreases st) as [Hd Hl']; [by rewrite E | done |].
      apply IH; [done | lia].
Qed.

(** More fuel does not change the result. *)
Lemma floodLoop_more (fuel fuel' : nat) st st' :
  floodLoop fuel w h target fillc st = Some st' → (fuel ≤ fuel')%nat →
  floodLoop fuel' w h target fillc st = Some st'.
Proof.
  revert fuel' st. induction fuel as [|n IH]; intros fuel' st Hf Hle.
  - cbn in Hf. destruct (stack st) as [|[x y] rest] eqn:E; [| done].
    destruct fuel'; cbn; by rewrite E.
  - destruct fuel' as [|n']; [lia |].
    rewrite floodLoop_unfold in *. destruct (stack st); [done |].
    apply IH; [done | lia].
Qed.

Lemma floodLoop_iterate (fuel : nat) st st' :
  floodLoop fuel w h target fillc st = Some st' →
  st' = iterate fuel w h target fillc st.
Proof.
  revert st. induction fuel as [|n IH]; intros st Hf.
  - cbn in *. destruct (stack st) as [|[x y] rest]; congruence.
  - rewrite floodLoop_unfold in Hf. rewrite iterate_unfold.
    destruct (stack st); [congruence | by apply IH].
Qed.

Lemma iterate_len_v (n : nat) st :
  length (visited st) = Z.to_nat (w * h) →
  length (visited (iterate n w h target fillc st)) = Z.to_nat (w * h).
Proof.
  revert st. induction n as [|n IH]; intros st Hl; [by destruct (stack st) |].
  rewrite iterate_unfold. destruct (stack st) eqn:E; [done |].
  apply IH. by apply step_decreases; [rewrite E |].
Qed.

Lemma step_visited_mono st i :
  isVisited (visited st) i = true → isVisited (visited (step w h target fillc st)) i = true.
Proof.
  intros Hv. destruct (stack st) as [|[x y] rest] eqn:E.
  - unfold step. by rewrite E.
  - destruct (step_cases st x y rest E) as [[-> _] | (-> & _)]; [done |].
    cbn. by apply isVisited_aset_mono.
Qed.

Lemma iterate_visited_mono (n : nat) st i :
  isVisited (visited st) i = true →
  isVisited (visited (iterate n w h target fillc st)) i = true.
Proof.
  revert st. induction n as [|n IH]; intros st Hv; [by destruct (stack st) |].
  rewrite iterate_unfold. destruct (stack st); [done |].
  by apply IH, step_visited_mono.
Qed.

Lemma iterate_add (n m : nat) st :
  iterate (n + m) w h target fillc st
  = iterate m w h target fillc (iterate n w h target fillc st).
Proof.
  revert st. induction n as [|n IH]; intros st.
  - cbn [Nat.add]. by destruct (stack st) eqn:E; cbn; rewrite ?E.
  - cbn [Nat.add]. rewrite !iterate_unfold.
    destruct (stack st) eqn:E; [| apply IH].
    destruct m; cbn; by rewrite ?E.
Qed.

(** [colours] tells what an iteration does to the buffer. *)
Lemma colours_step st :
  match colours w h target st with
  | Some i =>
      data (step w h target fillc st) = paint (data st) (i * 4) fillc
      ∧ visited (step w h target fillc st) = aset (visited st) i 1
  | None =>
      data (step w h target fillc st) = data st
      ∧ visited (step w h target fillc st) = visited st
  end.
Proof.
  unfold colours, step, fillBody. destruct (stack st) as [|[x y] rest]; [done |].
  destruct ((x <? 0) || (y <? 0) || (x >=? w) || (y >=? h)); [done |].
  destruct (isVisited (visited st) (y * w + x)); [done |].
  by destruct (matches (data st) target ((y * w + x) * 4)).
Qed.

(** The pixel an iteration colours is marked visited by it. *)
Lemma colours_marks st i :
  length (visited st) = Z.to_nat (w * h) →
  colours w h target st = Some i →
  isVisited (visited st) i = false ∧ isVisited (visited (step w h target fillc st)) i = true.
Proof.
  intros Hl Hc. unfold colours in Hc.
  destruct (stack st) as [|[x y] rest] eqn:E; [done |]. fold (idx w x y) in Hc.
  destruct ((x <? 0) || (y <? 0) || (x >=? w) || (y >=? h)) eqn:Eb; [done |].
  apply inb_dec in Eb.
  destruct (isVisited (visited st) (idx w x y)) eqn:Ev; [done |].
  destruct (matches (data st) target (idx w x y * 4)) eqn:Em; [| done].
  injection Hc as <-. split; [done |].
  rewrite (step_colour st x y rest E Eb Ev Em). cbn.
  pose proof (idx_range x y Eb). apply isVisited_aset_eq; lia.
Qed.

(** No pixel is coloured by two different iterations. *)
Lemma coloured_once (j k : nat) st i :
  length (visited st) = Z.to_nat (w * h) → (j < k)%nat →
  colours w h target (iterate j w h target fillc st) = Some i →
  colours w h target (iterate k w h target fillc st) ≠ Some i.
Proof.
  intros Hl Hjk Hj Hk.
  replace k with (j + S (k - S j))%nat in Hk by lia.
  rewrite iterate_add in Hk.
  set (stj := iterate j w h target fillc st) in *.
  assert (Hlj : length (visited stj) = Z.to_nat (w * h)) by by apply iterate_len_v.
  destruct (colours_marks stj i Hlj Hj) as [_ Hm].
  assert (stack stj ≠ []) as Hne.
  { unfold colours in Hj. by destruct (stack stj). }
  rewrite iterate_unfold in Hk. destruct (stack stj) eqn:E; [done |].
  apply (iterate_visited_mono (k - S j)) in Hm.
  apply colours_marks in Hk as [Hk _]; [congruence |].
  apply iterate_len_v. by apply step_decreases; [rewrite E |].
Qed.

Hypothesis orig_len : length orig = Z.to_nat (w * h * 4).

Lemma fillInv_skip st x y rest :
  fillInv w h orig target fillc sx sy st → stack st = (x, y) :: rest →
  (¬ inb w h x y ∨ isVisited (visited st) (idx w x y) = true
   ∨ matches (data st) target (idx w x y * 4) = false) →
  fillInv w h orig target fillc sx sy (mkFillState (data st) (visited st) rest).
Proof.
  intros Hi E Hs. pose proof Hi as [H1 H2 H3 H4 H5 H6 H7].
  split; cbn [data visited stack]; try done.
  - intros qx qy Hin. apply H5. rewrite E. by apply list_elem_of_further.
  - intros qx qy qx' qy' Hb Hv Ha.
    by apply (settled_skip st x y rest qx' qy' Hi E Hs), (H6 qx qy).
  - by apply (settled_skip st x y rest sx sy Hi E Hs).
Qed.

Lemma fillInv_colour st x y rest :
  fillInv w h orig target fillc sx sy st → stack st = (x, y) :: rest → inb w h x y →
  isVisited (visited st) (idx w x y) = false →
  matches (data st) target (idx w x y * 4) = true →
  fillInv w h orig target fillc sx sy (mkFillState (paint (data st) (idx w x y * 4) fillc)
             (aset (visited st) (idx w x y) 1)
             ((x, y - 1) :: (x, y + 1) :: (x - 1, y) :: (x + 1, y) :: rest)).
Proof.
  intros Hi E Hb Hv Hm. pose proof Hi as [H1 H2 H3 H4 H5 H6 H7].
  pose proof (idx_range x y Hb) as Hr.
  assert (Hreg : region w h orig target sx sy x y).
  { apply H5; [rewrite E; apply list_elem_of_here | done |].
    pose proof (H3 x y Hb) as Hp. rewrite Hv in Hp.
    by rewrite <- (matches_pix _ _ _ _ Hp). }
  assert (Hnew : isVisited (aset (visited st) (idx w x y) 1) (idx w x y) = true).
  { apply isVisited_aset_eq; lia. }
  split; cbn [data visited stack].
  - by rewrite length_paint.
  - by rewrite length_aset.
  - intros qx qy Hq. destruct (decide (idx w qx qy = idx w x y)) as [Ei | Ni].
    + rewrite Ei, Hnew. unfold pix. rewrite Ei.
      apply sampleAt_paint_eq; lia.
    + rewrite isVisited_aset_ne by done. specialize (H3 qx qy Hq).
      unfold pix in *. rewrite sampleAt_paint_ne by lia. exact H3.
  - intros qx qy Hq Hvq. destruct (decide (idx w qx qy = idx w x y)) as [Ei | Ni].
    + by destruct (idx_inj qx qy x y Hq Hb Ei) as [-> ->].
    + rewrite isVisited_aset_ne in Hvq by done. by apply H4.
  - intros qx qy Hin Hq Hmq. rewrite !elem_of_cons in Hin.
    destruct Hin as [[= -> ->] | [[= -> ->] | [[= -> ->] | [[= -> ->] | Hin]]]];
      try (apply (region_step x y); [done | unfold adj; lia | done | done]).
    apply H5; [| done | done]. rewrite E. by apply list_elem_of_further.
  - intros qx qy qx' qy' Hq Hvq Ha.
    destruct (decide (idx w qx qy = idx w x y)) as [Ei | Ni].
    + destruct (idx_inj qx qy x y Hq Hb Ei) as [-> ->].
      left. cbn [stack]. rewrite !elem_of_cons.
      destruct Ha as [[-> ->] | [[-> ->] | [[-> ->] | [-> ->]]]]; auto.
    + rewrite isVisited_aset_ne in Hvq by done.
      by apply (settled_colour st x y rest qx' qy' Hi E Hb), (H6 qx qy).
  - by apply (settled_colour st x y rest sx sy Hi E Hb).
Qed.

Lemma step_fillInv st : fillInv w h orig target fillc sx sy st → fillInv w h orig target fillc sx sy (step w h target fillc st).
Proof.
  intros Hi. destruct (stack st) as [|[x y] rest] eqn:E.
  - unfold step. by rewrite E.
  - destruct (step_cases st x y rest E) as [[-> Hs] | (-> & Hb & Hv & Hm)].
    + by apply (fillInv_skip st x y).
    + by apply fillInv_colour.
Qed.

Lemma floodLoop_fillInv (fuel : nat) st st' :
  fillInv w h orig target fillc sx sy st → floodLoop fuel w h target fillc st = Some st' →
  fillInv w h orig target fillc sx sy st' ∧ stack st' = [].
Proof.
  revert st. induction fuel as [|n IH]; intros st Hi Hf.
  - cbn in Hf. destruct (stack st) as [|[x y] rest] eqn:E; [| done].
    by injection Hf as <-.
  - rewrite floodLoop_unfold in Hf. destruct (stack st) eqn:E.
    + by injection Hf as <-.
    + by apply (IH (step w h target fillc st)), Hf; apply step_fillInv.
Qed.

(** Once the stack is empty the visited pixels are the region. *)
Lemma region_visited st x y :
  fillInv w h orig target fillc sx sy st → stack st = [] → region w h orig target sx sy x y →
  inb w h x y ∧ isVisited (visited st) (idx w x y) = true.
Proof.
  intros Hi Hs Hr. induction Hr as [Hb Hm | x y x' y' Hr [IHb IHv] Ha Hb Hm].
  - split; [done |].
    destruct (inv_seed st Hi) as [Hin | [? | [? | ?]]];
      [rewrite Hs in Hin; by apply elem_of_nil in Hin | done | done | congruence].
  - split; [done |].
    destruct (inv_closed st Hi x y x' y' IHb IHv Ha) as [Hin | [? | [? | ?]]];
      [rewrite Hs in Hin; by apply elem_of_nil in Hin | done | done | congruence].
Qed.

End FloodFill.

(** ** The fill as a whole *)

Section FillAt.

Lemma land_255_range (a : Z) : 0 ≤ Z.land a 255 ≤ 255.
Proof.
  change 255 with (Z.ones 8) at 1 2. rewrite Z.land_ones by lia.
  pose proof (Z.mod_pos_bound a (2 ^ 8)). lia.
Qed.

Lemma hexToRgba_clamped (hex : jsstring) :
  clamped (hexToRgba hex) = colour (hexToRgba hex).
Proof.
  assert (Hc : ∀ v, 0 ≤ v ≤ 255 → clamp8 v = v) by (unfold clamp8; lia).
  unfold hexToRgba. destruct (trim hex) as [|c r]; [reflexivity |].
  match goal with |- context [negb ?b] => destruct b end; [| reflexivity].
  unfold clamped, colour. cbn [negb chR chG chB chA].
  by rewrite !Hc by (apply land_255_range || lia).
Qed.

Lemma isVisited_replicate (n : nat) (i : Z) : isVisited (replicate n 0) i = false.
Proof.
  unfold isVisited, aget. destruct (i <? 0); [done |].
  destruct (replicate n 0 !! Z.to_nat i) as [b|] eqn:E; [| done].
  by apply lookup_replicate in E as [-> _].
Qed.

Lemma initial_fillInv (w h : Z) (pixels : list Z) (target : Sample)
    (fillc : Rgba) (sx sy : Z) :
  fillInv w h pixels target fillc sx sy
    (mkFillState pixels (replicate (Z.to_nat (w * h)) 0) [(sx, sy)]).
Proof.
  split; cbn [data visited stack].
  - done.
  - apply length_replicate.
  - intros x y _. by rewrite isVisited_replicate.
  - intros x y _. by rewrite isVisited_replicate.
  - intros x y Hin Hb Hm. apply list_elem_of_singleton in Hin as [= -> ->].
    by apply region_seed.
  - intros x y x' y' _. by rewrite isVisited_replicate.
  - left. apply list_elem_of_here.
Qed.

Lemma near_refl (v : Z) : near (Some v) (Some v) = true.
Proof. unfold near, tol. apply Z.leb_le. lia. Qed.

(** The seed pixel matches the sample taken from it. *)
Lemma seed_matches (w h : Z) (pixels : list Z) (sx sy : Z) :
  length pixels = Z.to_nat (w * h * 4) → inb w h sx sy →
  matches pixels (seedSample w pixels sx sy) (idx w sx sy * 4) = true.
Proof.
  intros Hl Hb. pose proof (idx_range w h sx sy Hb) as Hr.
  rewrite matches_sample. unfold seedSample, sampleAt.
  destruct (aget_in_range pixels (idx w sx sy * 4)) as [v0 ->]; [lia | lia |].
  destruct (aget_in_range pixels (idx w sx sy * 4 + 1)) as [v1 ->]; [lia | lia |].
  destruct (aget_in_range pixels (idx w sx sy * 4 + 2)) as [v2 ->]; [lia | lia |].
  destruct (aget_in_range pixels (idx w sx sy * 4 + 3)) as [v3 ->]; [lia | lia |].
  by rewrite !near_refl.
Qed.

(** What [floodFillData] computes whenever it does not return early. *)
Lemma floodFillData_filled (w h : Z) (pixels : list Z) (sx sy : Z)
    (fillc : Rgba) :
  length pixels = Z.to_nat (w * h * 4) → inb w h sx sy →
  sameColor (seedSample w pixels sx sy) fillc = false →
  ∃ d, floodFillData w h pixels sx sy fillc = Filled d
    ∧ length d = length pixels
    ∧ ∀ x y, inb w h x y →
        (region w h pixels (seedSample w pixels sx sy) sx sy x y →
         pix w d x y = clamped fillc)
        ∧ (¬ region w h pixels (seedSample w pixels sx sy) sx sy x y →
           pix w d x y = pix w pixels x y).
Proof.
  intros Hl Hb Hs. set (target := seedSample w pixels sx sy) in *.
  set (st0 := mkFillState pixels (replicate (Z.to_nat (w * h)) 0) [(sx, sy)]).
  destruct (floodLoop_terminates w h target fillc (fillFuel w h) st0)
    as (st' & Hrun & Hempty).
  { apply length_replicate. }
  { unfold measure, st0, fillFuel. cbn [stack visited length].
    rewrite unvisited_replicate. lia. }
  destruct (floodLoop_fillInv w h pixels target fillc sx sy Hl
              (fillFuel w h) st0 st')
    as [Hi _]; [apply initial_fillInv | done |].
  exists (data st'). split; [| split].
  - unfold floodFillData. apply inb_dec in Hb. rewrite Hb.
    fold (idx w sx sy). fold (seedSample w pixels sx sy). fold target.
    rewrite Hs. fold st0. by rewrite Hrun.
  - apply (inv_len_d _ Hi).
  - intros x y Hxy. pose proof (inv_pix _ Hi x y Hxy) as Hp.
    split.
    + intros Hr.
      destruct (region_visited w h pixels target fillc sx sy st' x y Hi Hempty Hr)
        as [_ Hv].
      by rewrite Hv in Hp.
    + intros Hn.
      destruct (isVisited (visited st') (idx w x y)) eqn:Hv; [| done].
      destruct Hn. by apply (inv_reach _ Hi).
Qed.

End FillAt.

Section FillOnCanvas.

Implicit Types (st : Stage) (pixels : list Z).

(** A fill that does not return early installs the filled buffer as the
    background image, clears the background colour and, outside a
    restore, pushes one snapshot. *)
Lemma floodFillAt_commits st pixels (sx sy : Z) (hex : jsstring) :
  let c := canvas st in
  length pixels = Z.to_nat (width c * height c * 4) →
  inb (width c) (height c) sx sy →
  sameColor (seedSample (width c) pixels sx sy) (hexToRgba hex) = false →
  ∃ d, floodFillData (width c) (height c) pixels sx sy (hexToRgba hex)
       = Filled d
    ∧ pix (width c) d sx sy = colour (hexToRgba hex)
    ∧ backgroundImage (canvas (floodFillAt pixels sx sy hex st))
      = Some (mkBitmap (width c) (height c) d)
    ∧ backgroundColor (canvas (floodFillAt pixels sx sy hex st)) = None
    ∧ (restoring st = false → (length (undo st) < historyCap)%nat →
       undo (floodFillAt pixels sx sy hex st)
       = undo st ++ [mkSnapshot (objects c) None
                       (Some (mkBitmap (width c) (height c) d))]).
Proof.
  intros c Hl Hb Hs.
  destruct (floodFillData_filled _ _ _ _ _ _ Hl Hb Hs) as (d & Hd & Hld & Hpx).
  exists d. split; [done |]. split.
  { rewrite <- hexToRgba_clamped. apply (Hpx sx sy Hb).
    apply region_seed; [done |]. by apply (seed_matches _ (height c)). }
  unfold floodFillAt. fold c. rewrite Hd.
  set (c' := mkCanvas _ _ _ _ _ _ _). set (st1 := setCanvas c' st).
  assert (Hc : canvas (push st1) = c').
  { unfold push. by destruct (restoring st1). }
  rewrite Hc. split; [done |]. split; [done |].
  intros Hr Hu.
  destruct (push_stacks st1) as (-> & _); [done | cbn; lia |].
  apply lastN_short. cbn [st1 setCanvas undo].
  rewrite length_app. cbn [length]. lia.
Qed.

Lemma aget_shift4 (a b c d : Z) (l : list Z) (j : Z) :
  0 ≤ j → aget (a :: b :: c :: d :: l) (j + 4) = aget l j.
Proof.
  intros Hj. unfold aget.
  destruct (Z.ltb_spec (j + 4) 0); [lia |]. destruct (Z.ltb_spec j 0); [lia |].
  replace (Z.to_nat (j + 4)) with (S (S (S (S (Z.to_nat j))))) by lia.
  reflexivity.
Qed.

Lemma sampleAt_shift4 (a b c d : Z) (l : list Z) (j : Z) :
  0 ≤ j → sampleAt (a :: b :: c :: d :: l) (j + 4) = sampleAt l j.
Proof.
  intros Hj. unfold sampleAt.
  replace (j + 4 + 1) with (j + 1 + 4) by lia.
  replace (j + 4 + 2) with (j + 2 + 4) by lia.
  replace (j + 4 + 3) with (j + 3 + 4) by lia.
  by rewrite !aget_shift4 by lia.
Qed.

Lemma sampleAt_head (a b c d : Z) (l : list Z) :
  sampleAt (a :: b :: c :: d :: l) 0 = (Some a, Some b, Some c, Some d).
Proof. reflexivity. Qed.

Lemma length_solid (n : nat) (c : Rgba) : length (solid n c) = (4 * n)%nat.
Proof.
  induction n as [|n IH]; [done |].
  unfold solid in *. cbn [replicate concat app length]. rewrite IH. lia.
Qed.

Lemma sampleAt_solid (n : nat) (c : Rgba) (i : Z) :
  0 ≤ i < Z.of_nat n → sampleAt (solid n c) (i * 4) = colour c.
Proof.
  revert i. induction n as [|n IH]; intros i Hi; [lia |].
  unfold solid in *. cbn [replicate concat app].
  destruct (decide (i = 0)) as [-> | Hne]; [apply sampleAt_head |].
  replace (i * 4) with ((i - 1) * 4 + 4) by lia.
  rewrite sampleAt_shift4 by lia. apply IH. lia.
Qed.

Lemma fillStage_canvas :
  canvas fillStage
  = mkCanvas 700 700 [] (Some white) None false
      (Some (mkBrush 12 (js "#000000"))).
Proof. reflexivity. Qed.

(** C1, as stated, fails when the seed already has the fill colour: the
    function returns before the loop, so a pixel of the region whose
    colour is within the tolerance of the target, but is not the fill
    colour, is not coloured. *)
Lemma fill_with_seed_colour_skips_region :
  inb 700 700 0 0 ∧ inb 700 700 1 0
  ∧ region 700 700 nearRed (seedSample 700 nearRed 0 0) 0 0 1 0
  ∧ pix 700 nearRed 1 0 = colour (250, 0, 0, 255)
  ∧ colour (250, 0, 0, 255) ≠ colour (hexToRgba red)
  ∧ floodFillData 700 700 nearRed 0 0 (hexToRgba red) = Skipped
  ∧ floodFillAt nearRed 0 0 red fillStage = fillStage.
Proof.
  assert (Hs : seedSample 700 nearRed 0 0 = colour (hexToRgba red)).
  { unfold seedSample, nearRed. cbn [app]. apply sampleAt_head. }
  assert (Hp : pix 700 nearRed 1 0 = colour (250, 0, 0, 255)).
  { unfold pix, nearRed. cbn [app].
    change (idx 700 1 0 * 4) with (0 + 4). rewrite sampleAt_shift4 by lia.
    apply (sampleAt_solid _ _ 0). lia. }
  assert (Hskip : floodFillData 700 700 nearRed 0 0 (hexToRgba red) = Skipped).
  { unfold floodFillData. cbn [Z.ltb Z.geb Z.compare orb].
    fold (idx 700 0 0). fold (seedSample 700 nearRed 0 0). by rewrite Hs. }
  assert (Hb0 : inb 700 700 0 0) by (unfold inb; lia).
  assert (Hb1 : inb 700 700 1 0) by (unfold inb; lia).
  assert (Hsame : floodFillAt nearRed 0 0 red fillStage = fillStage).
  { unfold floodFillAt. rewrite fillStage_canvas. cbn [width height].
    by rewrite Hskip. }
  repeat split; try done; try lia.
  - apply (region_step 0 0 1 0).
    + apply region_seed; [done |]. rewrite matches_sample.
      fold (seedSample 700 nearRed 0 0). by rewrite Hs.
    + unfold adj. lia.
    + done.
    + rewrite matches_sample. fold (pix 700 nearRed 1 0). by rewrite Hp, Hs.
Qed.

(** C1 (amended). For every pixel buffer of the canvas size, in-bounds
    seed and fill colour other than the colour sampled at the seed, the
    fill ends and installs as background image a buffer in which exactly
    the pixels of the 4-connected region of the seed (pixels within the
    tolerance 8 of the sampled colour on all four channels) hold the fill
    colour; every other pixel holds its original value. *)
Theorem flood_fill_region st pixels (sx sy : Z) (hex : jsstring) :
  let c := canvas st in
  let target := seedSample (width c) pixels sx sy in
  length pixels = Z.to_nat (width c * height c * 4) →
  inb (width c) (height c) sx sy →
  sameColor target (hexToRgba hex) = false →
  ∃ d, floodFillData (width c) (height c) pixels sx sy (hexToRgba hex)
       = Filled d
    ∧ backgroundImage (canvas (floodFillAt pixels sx sy hex st))
      = Some (mkBitmap (width c) (height c) d)
    ∧ length d = length pixels
    ∧ ∀ x y, inb (width c) (height c) x y →
        (region (width c) (height c) pixels target sx sy x y →
         pix (width c) d x y = colour (hexToRgba hex))
        ∧ (¬ region (width c) (height c) pixels target sx sy x y →
           pix (width c) d x y = pix (width c) pixels x y).
Proof.
  intros c target Hl Hb Hs. subst c target.
  destruct (floodFillAt_commits st pixels sx sy hex Hl Hb Hs)
    as (d & Hd & _ & Himg & _).
  destruct (floodFillData_filled _ _ _ _ _ _ Hl Hb Hs) as (d' & Hd' & Hld & Hpx).
  assert (d' = d) as -> by congruence.
  exists d. rewrite <- hexToRgba_clamped. done.
Qed.

Lemma flood_fill_region_witness :
  ∃ d, floodFillData 3 1 [255; 255; 255; 255; 250; 250; 250; 255; 0; 0; 0; 255]
         0 0 (hexToRgba red) = Filled d
    ∧ d = [255; 0; 0; 255; 255; 0; 0; 255; 0; 0; 0; 255].
Proof.
  destruct (flood_fill_region (smallStage 3 1)
              [255; 255; 255; 255; 250; 250; 250; 255; 0; 0; 0; 255]
              0 0 red) as (d & Hd & _); [reflexivity | | reflexivity |].
  - unfold inb. cbn. lia.
  - exists d. split; [exact Hd |]. vm_compute in Hd. congruence.
Defined.

(** C5, as stated, fails for a seed whose colour is within the tolerance
    of the fill colour without being equal to it: the fill runs and a
    snapshot is pushed. *)
Lemma fill_within_tolerance_is_not_noop :
  inb 700 700 0 0
  ∧ matches darkRed (colour (hexToRgba red)) (idx 700 0 0 * 4) = true
  ∧ floodFillAt darkRed 0 0 red fillStage ≠ fillStage
  ∧ length (undo (floodFillAt darkRed 0 0 red fillStage))
    = S (length (undo fillStage)).
Proof.
  assert (Hs : seedSample 700 darkRed 0 0 = colour (250, 0, 0, 255)).
  { apply (sampleAt_solid _ _ 0). lia. }
  assert (Hb : inb 700 700 0 0) by (unfold inb; lia).
  destruct (floodFillAt_commits fillStage darkRed 0 0 red)
    as (d & _ & _ & _ & _ & Hu).
  { rewrite fillStage_canvas. cbn [width height]. unfold darkRed.
    rewrite length_solid. lia. }
  { by rewrite fillStage_canvas. }
  { rewrite fillStage_canvas. cbn [width]. by rewrite Hs. }
  specialize (Hu eq_refl).
  assert (Hlen : length (undo (floodFillAt darkRed 0 0 red fillStage))
                 = S (length (undo fillStage))).
  { rewrite Hu by (cbn; unfold historyCap; lia). rewrite length_app. cbn. lia. }
  split; [exact Hb |]. split; [| split; [| exact Hlen]].
  - rewrite matches_sample. fold (seedSample 700 darkRed 0 0). by rewrite Hs.
  - intros E. rewrite E in Hlen. lia.
Qed.

(** C5 (amended). The fill changes nothing, and pushes no snapshot, when
    the seed is outside the canvas, and when the colour sampled at the
    seed is exactly the fill colour on all four channels. *)
Theorem fill_noop_cases st pixels (x y : Z) (hex : jsstring) :
  let c := canvas st in
  (¬ inb (width c) (height c) x y → floodFillAt pixels x y hex st = st)
  ∧ (sameColor (seedSample (width c) pixels x y) (hexToRgba hex) = true →
     floodFillAt pixels x y hex st = st).
Proof.
  intros c. unfold floodFillAt, floodFillData. fold c. fold (idx (width c) x y).
  fold (seedSample (width c) pixels x y).
  destruct ((x <? 0) || (y <? 0) || (x >=? width c) || (y >=? height c)) eqn:Eb.
  - done.
  - apply inb_dec in Eb. split; [done |]. by intros ->.
Qed.

Lemma fill_noop_cases_witness :
  floodFillAt [255; 0; 0; 255] 5 0 red (smallStage 1 1) = smallStage 1 1
  ∧ floodFillAt [255; 0; 0; 255] 0 0 red (smallStage 1 1) = smallStage 1 1.
Proof.
  split.
  - destruct (fill_noop_cases (smallStage 1 1) [255; 0; 0; 255] 5 0 red)
      as [Hout _].
    apply Hout. unfold inb. cbn. lia.
  - destruct (fill_noop_cases (smallStage 1 1) [255; 0; 0; 255] 0 0 red)
      as [_ Hsame].
    apply Hsame. reflexivity.
Defined.

(** C6. On every buffer, seed, target and fill colour the loop empties
    its stack within [4 * width * height + 1] iterations, whatever extra
    fuel it is given; [floodFillData] never runs out; and no pixel is
    coloured by two different iterations. *)
Theorem flood_fill_terminates (w h : Z) pixels (sx sy : Z) (target : Sample)
    (fillc : Rgba) (fuel j k : nat) (i : Z) :
  let fs0 := mkFillState pixels (replicate (Z.to_nat (w * h)) 0) [(sx, sy)] in
  (∃ fs, floodLoop (fillFuel w h) w h target fillc fs0 = Some fs
     ∧ stack fs = []
     ∧ fs = iterate (4 * Z.to_nat (w * h) + 1) w h target fillc fs0
     ∧ ((fillFuel w h ≤ fuel)%nat →
        floodLoop fuel w h target fillc fs0 = Some fs))
  ∧ floodFillData w h pixels sx sy fillc ≠ OutOfFuel
  ∧ ((j < k)%nat →
     colours w h target (iterate j w h target fillc fs0) = Some i →
     colours w h target (iterate k w h target fillc fs0) ≠ Some i).
Proof.
  intros fs0.
  assert (Hl : length (visited fs0) = Z.to_nat (w * h)) by apply length_replicate.
  assert (Hm : (measure fs0 ≤ fillFuel w h)%nat).
  { unfold measure, fs0, fillFuel. cbn [stack visited length].
    rewrite unvisited_replicate. lia. }
  assert (Hall : ∀ t, ∃ fs, floodLoop (fillFuel w h) w h t fillc fs0 = Some fs
                        ∧ stack fs = []).
  { intros t. by apply floodLoop_terminates. }
  split; [| split].
  - destruct (Hall target) as (fs & Hrun & He). exists fs.
    split; [done |]. split; [done |]. split.
    + replace (4 * Z.to_nat (w * h) + 1)%nat with (fillFuel w h)
        by (unfold fillFuel; lia).
      by apply floodLoop_iterate.
    + by apply floodLoop_more.
  - unfold floodFillData.
    destruct (_ || _); [done |]. destruct (sameColor _ _); [done |].
    destruct (Hall (sampleAt pixels ((sy * w + sx) * 4))) as (fs & Hrun & _).
    fold fs0. by rewrite Hrun.
  - by apply coloured_once.
Qed.

Lemma flood_fill_terminates_witness :
  let fs0 := mkFillState [255; 255; 255; 255; 250; 250; 250; 255]
               (replicate (Z.to_nat (2 * 1)) 0) [(0, 0)] in
  let target : Sample := (Some 255, Some 255, Some 255, Some 255) in
  floodLoop 20 2 1 target (255, 0, 0, 255) fs0
  = Some (mkFillState [255; 0; 0; 255; 255; 0; 0; 255] [1; 1] [])
  ∧ colours 2 1 target (iterate 5 2 1 target (255, 0, 0, 255) fs0) ≠ Some 0.
Proof.
  intros fs0 target.
  destruct (flood_fill_terminates 2 1 [255; 255; 255; 255; 250; 250; 250; 255]
              0 0 target (255, 0, 0, 255) 20 0 5 0)
    as ((fs & Hrun & _ & _ & Hmore) & _ & Honce).
  split.
  - etransitivity; [apply Hmore; vm_compute; lia |].
    rewrite <- Hrun. reflexivity.
  - apply Honce; [lia | reflexivity].
Defined.

End FillOnCanvas.

(** ** The eraser *)

Section Eraser.

Implicit Types (st : Stage) (pts : list (Z * Z)).

Lemma push_canvas st : canvas (push st) = canvas st.
Proof. unfold push. by destruct (restoring st). Qed.

Lemma push_tools st :
  tool (push st) = tool st ∧ color (push st) = color st
  ∧ size (push st) = size st.
Proof. unfold push. by destruct (restoring st). Qed.

Lemma floodFillAt_tools st (pixels : list Z) (x y : Z) (hex : jsstring) :
  tool (floodFillAt pixels x y hex st) = tool st
  ∧ size (floodFillAt pixels x y hex st) = size st.
Proof.
  unfold floodFillAt. destruct (floodFillData _ _ _ _ _ _); try done.
  set (st1 := setCanvas _ st). by destruct (push_tools st1) as (-> & _ & ->).
Qed.

Lemma applyBrush_eraser st :
  tool st = eraser →
  canvas (applyBrush st)
  = mkCanvas (width (canvas st)) (height (canvas st)) (objects (canvas st))
      (backgroundColor (canvas st)) (backgroundImage (canvas st)) true
      (Some (mkBrush (brushSize (size st)) white)).
Proof. intros E. unfold applyBrush. by rewrite E. Qed.

(** A stroke of the eraser drawn after a fill that ran. *)
Lemma eraser_after_fill st (pixels : list Z) (sx sy : Z) (hex : jsstring) pts :
  let c := canvas st in
  length pixels = Z.to_nat (width c * height c * 4) →
  inb (width c) (height c) sx sy →
  sameColor (seedSample (width c) pixels sx sy) (hexToRgba hex) = false →
  let st' := setTool eraser (floodFillAt pixels sx sy hex st) in
  tool st' = eraser
  ∧ objects (canvas (strokeDone pts st'))
    = objects c ++ [mkPath pts white (brushSize (size st))]
  ∧ backgroundColor (canvas st') = None
  ∧ ∃ d, backgroundImage (canvas st') = Some (mkBitmap (width c) (height c) d)
      ∧ pix (width c) d sx sy = colour (hexToRgba hex).
Proof.
  intros c Hl Hb Hs. subst c.
  destruct (floodFillAt_commits st pixels sx sy hex Hl Hb Hs)
    as (d & Hd & Hpix & Himg & Hbg & _).
  destruct (floodFillAt_tools st pixels sx sy hex) as [_ Hsz].
  assert (Hobj : objects (canvas (floodFillAt pixels sx sy hex st)) = objects (canvas st)).
  { unfold floodFillAt. rewrite Hd. by rewrite push_canvas. }
  generalize dependent (floodFillAt pixels sx sy hex st). intros st1 Himg Hbg Hsz Hobj.
  assert (Hc : canvas (setTool eraser st1)
               = mkCanvas (width (canvas st1)) (height (canvas st1)) (objects (canvas st))
                   None (Some (mkBitmap (width (canvas st)) (height (canvas st)) d)) true
                   (Some (mkBrush (brushSize (size st)) white))).
  { unfold setTool. rewrite applyBrush_eraser by reflexivity.
    cbn [canvas size]. by rewrite Hobj, Hbg, Himg, Hsz. }
  intros st'. subst st'. split; [reflexivity |]. split; [| split].
  - unfold strokeDone. rewrite Hc. cbn [isDrawingMode freeDrawingBrush].
    by rewrite push_canvas.
  - by rewrite Hc.
  - exists d. by rewrite Hc.
Qed.

(** C9, as stated, fails once a fill has replaced the background: on
    the mounted white canvas a red fill at the origin turns the pixel
    under the pointer red and sets the background colour to null, and the
    stroke the eraser then draws is still white. *)
Lemma eraser_is_white_after_fill :
  let st := setTool eraser (onDown whitePixels 0 0 fillStage) in
  tool st = eraser
  ∧ objects (canvas (strokeDone [(0, 0); (9, 9)] st))
    = [mkPath [(0, 0); (9, 9)] white 12]
  ∧ backgroundColor (canvas st) = None
  ∧ (∃ d, backgroundImage (canvas st) = Some (mkBitmap 700 700 d)
      ∧ pix 700 d 0 0 = colour (hexToRgba red))
  ∧ colour (hexToRgba red) ≠ colour (hexToRgba white).
Proof.
  assert (Hs : seedSample 700 whitePixels 0 0 = colour (255, 255, 255, 255)).
  { apply (sampleAt_solid _ _ 0). lia. }
  change (onDown whitePixels 0 0 fillStage)
    with (floodFillAt whitePixels 0 0 red fillStage).
  destruct (eraser_after_fill fillStage whitePixels 0 0 red [(0, 0); (9, 9)])
    as (H1 & H2 & H3 & H4).
  { rewrite fillStage_canvas. cbn [width height]. unfold whitePixels.
    rewrite length_solid. lia. }
  { rewrite fillStage_canvas. unfold inb. cbn [width height]. lia. }
  { rewrite fillStage_canvas. cbn [width]. rewrite Hs. reflexivity. }
  rewrite fillStage_canvas in H2, H4. cbn [width height objects app] in H2, H4.
  change (brushSize (size fillStage)) with 12 in H2.
  intros st. split; [exact H1 |]. split; [exact H2 |]. split; [exact H3 |].
  split; [exact H4 | discriminate].
Qed.

(** C9 (amended). With the eraser active, every stroke drawn is a path
    of the fixed colour #ffffff (and of the brush width); that is the
    background colour of the surface as long as the background is the
    solid colour set at mount and by Clear. *)
Theorem eraser_strokes_are_white st pts :
  tool st = eraser →
  let st' := strokeDone pts (applyBrush st) in
  objects (canvas st')
  = objects (canvas st) ++ [mkPath pts white (brushSize (size st))]
  ∧ (backgroundColor (canvas st) = Some white →
     stroke <$> last (objects (canvas st')) = backgroundColor (canvas st'))
  ∧ backgroundColor (canvas mount) = Some white
  ∧ backgroundColor (canvas (handleClear st)) = Some white.
Proof.
  intros E st'. subst st'.
  assert (Hc : canvas (strokeDone pts (applyBrush st))
               = mkCanvas (width (canvas st)) (height (canvas st))
                   (objects (canvas st)
                    ++ [mkPath pts white (brushSize (size st))])
                   (backgroundColor (canvas st)) (backgroundImage (canvas st))
                   true (Some (mkBrush (brushSize (size st)) white))).
  { unfold strokeDone. rewrite applyBrush_eraser by done.
    cbn [isDrawingMode freeDrawingBrush]. by rewrite push_canvas. }
  rewrite Hc. cbn [objects backgroundColor]. split; [done |]. split; [| split].
  - intros ->. by rewrite last_snoc.
  - reflexivity.
  - unfold handleClear. by rewrite push_canvas.
Qed.

Lemma eraser_strokes_are_white_witness :
  objects (canvas (strokeDone [(1, 1)] (applyBrush (setTool eraser mount))))
  = [mkPath [(1, 1)] white 12].
Proof.
  destruct (eraser_strokes_are_white (setTool eraser mount) [(1, 1)])
    as [H _]; [reflexivity | exact H].
Defined.

End Eraser.

(** ** Examples on the history, and the parser as a whole *)

Section HistoryAndParser.

Lemma undo_stack_capped_witness :
  let st := run (map Commit (scenes 1 29)) mount in
  undo (commit (scene 30) st) = tail (undo st) ++ [scene 30]
  ∧ undo (run (map Commit (scenes 31 35)) st) = scenes 36 30
  ∧ undo (run (replicate 40 Undo) (run (map Commit (scenes 31 35)) st))
    = [scene 36].
Proof.
  intros st.
  destruct (undo_stack_capped (map Commit (scenes 1 29)) (scenes 31 35)
              (scene 30) 40) as (_ & Hfull & Hss).
  split; [apply Hfull; reflexivity |].
  destruct (Hss eq_refl) as (H1 & H2 & _). split; [exact H1 | exact H2].
Defined.

Lemma redo_undoes_undo_witness :
  let st := run [Commit (scene 1); Commit (scene 2)] mount in
  handleRedo (handleUndo st) = st
  ∧ redo (run [Commit (scene 4); Redo] (commit (scene 3) st)) = [].
Proof.
  intros st.
  destruct (redo_undoes_undo [Commit (scene 1); Commit (scene 2)]
              [Commit (scene 4); Redo] (scene 3)) as (H1 & _ & _ & H2).
  split; [apply H1; left; vm_compute; lia |].
  apply H2. repeat constructor; discriminate.
Defined.

Lemma undo_round_trip_witness :
  toJSON (canvas (run (replicate 3 Undo) (run (map Commit (scenes 1 3)) mount)))
  = blank
  ∧ undo (run (replicate 1 Undo) (run (map Commit (scenes 1 3)) mount))
    = [blank; scene 1; scene 2]
  ∧ handleUndo mount = mount.
Proof.
  destruct (undo_round_trip (scenes 1 3) 3 mount) as [H3 Hfloor].
  destruct (undo_round_trip (scenes 1 3) 1 mount) as [H1 _].
  split; [| split].
  - apply H3; [vm_compute; lia | vm_compute; lia].
  - apply H1. vm_compute; lia.
  - apply Hfloor. vm_compute; lia.
Defined.

(** C10, as stated, fails on a string of the right length that only
    begins with hex digits: [parseInt] reads the digits it finds. *)
Lemma hexToRgba_reads_hex_prefix :
  isHexColor (js "12zzzz") = false
  ∧ hexToRgba (js "12zzzz") = (0, 0, 18, 255)
  ∧ hexToRgba (js "12zzzz") ≠ opaqueBlack.
Proof. repeat split; discriminate. Qed.

(** C10 (amended). [hexToRgba] returns a quadruple with alpha 255 on
    every string; a three-digit hex colour gives the same value as its
    doubled six-digit form; and a string whose body (trimmed, one leading
    # removed) has neither three nor six code units gives opaque black. *)
Theorem hexToRgba_spec (hex : jsstring) (a b c : N) :
  chA (hexToRgba hex) = 255
  ∧ (is_Some (hexDigit a) → is_Some (hexDigit b) → is_Some (hexDigit c) →
     hexToRgba [a; b; c] = hexToRgba [a; a; b; b; c; c]
     ∧ hexToRgba (35%N :: [a; b; c]) = hexToRgba (35%N :: [a; a; b; b; c; c]))
  ∧ (length (hexBody hex) ≠ 3%nat → length (hexBody hex) ≠ 6%nat →
     hexToRgba hex = opaqueBlack).
Proof.
  split; [apply hexToRgba_alpha |]. split; [| apply hexToRgba_bad_length].
  intros Ha _ Hc.
  destruct (hexDigit_plain a Ha) as [Hwa Hna].
  destruct (hexDigit_plain c Hc) as [Hwc _].
  by apply hexToRgba_shorthand_plain.
Qed.

Lemma hexToRgba_spec_witness :
  hexToRgba (js "f80") = hexToRgba (js "ff8800")
  ∧ hexToRgba (js "#f80") = hexToRgba (js "#ff8800")
  ∧ hexToRgba (js "#12345") = opaqueBlack.
Proof.
  destruct (hexToRgba_spec (js "#12345") 102 56 48) as (_ & Hshort & Hbad).
  destruct Hshort as [H1 H2];
    [eexists; reflexivity | eexists; reflexivity | eexists; reflexivity |].
  split; [exact H1 |]. split; [exact H2 |].
  apply Hbad; vm_compute; lia.
Defined.

End HistoryAndParser.

(** ** The quality gate and the panels *)

Section Panels.

Implicit Types (st : Story) (p : list (option Frame)).

Lemma variance_of_white : measureVariance (uniform 255) = 0%float.
Proof. vm_compute. reflexivity. Qed.

Lemma addToStory_cases (b : Blob) (down : list Z) (now : Z) (u : jsstring) st :
  (length (frames st) < 3)%nat →
  addToStory (Some b) down now u st
  = if tooPlain b (measureVariance down) then show msgDetail st
    else mkStory (frames st ++ [Some (mkFrame now u b)]) (dragIndex st)
           (toast st).
Proof.
  intros H. unfold addToStory, addFull, addResume.
  by destruct (Nat.leb_spec 3 (length (frames st))); [lia |].
Qed.

(** The loop of [measureVarianceFromCanvas] adds up the grey levels and
    their squares, from left to right. *)
Lemma sums_greys (k : nat) : ∀ (d : list Z) (a b : float),
  length d = (4 * k)%nat →
  sums d a b
  = (fold_left PrimFloat.add (greys d) a,
     fold_left PrimFloat.add (map (λ x, x * x)%float (greys d)) b).
Proof.
  induction k as [|k IH]; intros d a b Hl.
  - destruct d; [reflexivity | cbn in Hl; lia].
  - destruct d as [|r [|g [|b0 [|al rest]]]]; cbn [length] in Hl; try lia.
    cbn [sums greys map fold_left]. apply IH. lia.
Qed.

Lemma length_greys (k : nat) : ∀ d : list Z,
  length d = (4 * k)%nat → length (greys d) = k.
Proof.
  induction k as [|k IH]; intros d Hl.
  - destruct d; [reflexivity | cbn in Hl; lia].
  - destruct d as [|r [|g [|b0 [|al rest]]]]; cbn [length] in Hl; try lia.
    cbn [greys length]. f_equal. apply IH. lia.
Qed.

(** On the data of a 64 x 64 canvas, [measureVarianceFromCanvas] returns
    the intensity variance, raised to 0 when it is below. *)
Lemma measureVariance_intensity (down : list Z) :
  length down = (4 * 4096)%nat →
  measureVariance down = max0 (intensityVariance down).
Proof.
  intros Hl. unfold measureVariance, intensityVariance, mean.
  rewrite (sums_greys 4096 down) by exact Hl.
  rewrite length_map, (length_greys 4096 down) by exact Hl.
  reflexivity.
Qed.

Lemma float_of_400 : Prim2SF 400 = S754_finite false 7036874417766400 (-44).
Proof. vm_compute. reflexivity. Qed.

Lemma float_of_0 : Prim2SF 0 = S754_zero false.
Proof. vm_compute. reflexivity. Qed.

(** Raising a variance to 0 does not change on which side of 400 it
    is. *)
Lemma max0_below (x : float) : (max0 x <? 400)%float = (x <? 400)%float.
Proof.
  unfold max0. destruct (is_nan x) eqn:En; [reflexivity |].
  destruct (0 <? x)%float eqn:E0; [reflexivity |].
  unfold is_nan in En. rewrite FloatAxioms.eqb_spec in En.
  rewrite FloatAxioms.ltb_spec in E0.
  rewrite !FloatAxioms.ltb_spec. rewrite float_of_0 in *.
  rewrite float_of_400.
  destruct (Prim2SF x) as [s | s | | s m e].
  - reflexivity.
  - destruct s; [reflexivity | discriminate E0].
  - discriminate En.
  - destruct s; [reflexivity | discriminate E0].
Qed.

Lemma gate_by_intensity (b : Blob) (down : list Z) :
  length down = (4 * 4096)%nat →
  tooPlain b (measureVariance down) = true
  ↔ (blobSize b < 3000 ∨ (intensityVariance down <? 400)%float = true).
Proof.
  intros Hl. unfold tooPlain.
  rewrite measureVariance_intensity, max0_below by exact Hl.
  rewrite orb_true_iff, Z.ltb_lt. reflexivity.
Qed.

Lemma sums_black (k : nat) (rest : list Z) :
  sums (concat (replicate k [0; 0; 0; 255]) ++ rest) 0 0 = sums rest 0 0.
Proof.
  induction k as [|k IH]; [reflexivity |].
  cbn [replicate concat app].
  change (sums (concat (replicate k [0; 0; 0; 255]) ++ rest) 0 0
          = sums rest 0 0).
  exact IH.
Qed.

Lemma sums_white (m : nat) : ∀ a b : float,
  sums (concat (replicate m [255; 255; 255; 255])) a b = addWhite m a b.
Proof.
  induction m as [|m IH]; intros a b; [reflexivity |].
  cbn [replicate concat app addWhite].
  change (sums (concat (replicate m [255; 255; 255; 255]))
            (a + 255)%float (b + 65025)%float
          = addWhite m (a + 255)%float (b + 65025)%float).
  apply IH.
Qed.

Lemma length_pixels (k : nat) (a b c d : Z) :
  length (concat (replicate k [a; b; c; d])) = (4 * k)%nat.
Proof.
  induction k as [|k IH]; [reflexivity |].
  cbn [replicate concat app length]. rewrite IH. lia.
Qed.

Lemma length_shape (k : nat) :
  (k ≤ 4096)%nat → length (shape k) = (4 * 4096)%nat.
Proof.
  intros Hk. unfold shape. rewrite length_app, !length_pixels. lia.
Qed.

Lemma shapeScan_tests (fuel : nat) : ∀ (m : nat) (a b : float),
  shapeScan fuel m a b = true →
  ∀ j, (j < fuel)%nat →
       shapeTest (4096 - (m + j)) (addWhite j a b).1 (addWhite j a b).2
       = true.
Proof.
  induction fuel as [|fuel IH]; intros m a b Hs j Hj; [lia |].
  cbn [shapeScan] in Hs. apply andb_true_iff in Hs as [Ht Hs].
  destruct j as [|j].
  - rewrite Nat.add_0_r. exact Ht.
  - cbn [addWhite]. replace (m + S j)%nat with (S m + j)%nat by lia.
    apply (IH (S m) _ _ Hs). lia.
Qed.

(** The variance test on every size of shape, by one pass over the
    running sums. *)
Lemma shape_sizes_tested : shapeScan 4097 0 0 0 = true.
Proof. vm_compute. reflexivity. Qed.

Lemma shapeTest_below (k : nat) (a b : float) :
  shapeTest k a b = true →
  (max0 (b / toFloat (64 * 64)
         - a / toFloat (64 * 64) * (a / toFloat (64 * 64))) <? 400)%float
  = ((k <? 26)%nat || (4070 <? k)%nat).
Proof.
  intros Ht. unfold shapeTest in Ht.
  exact (proj1 (Bool.eqb_true_iff _ _) Ht).
Qed.

Lemma shape_test_holds (k : nat) :
  (k ≤ 4096)%nat →
  shapeTest k (addWhite (4096 - k) 0 0).1 (addWhite (4096 - k) 0 0).2 = true.
Proof.
  intros Hk.
  assert (Hj : (4096 - k < 4097)%nat) by (apply Nat.lt_succ_r, Nat.le_sub_l).
  pose proof (shapeScan_tests 4097 0 0 0 shape_sizes_tested (4096 - k) Hj)
    as Ht.
  assert (E : (4096 - (0 + (4096 - k)) = k)%nat).
  { rewrite Nat.add_0_l. apply Nat.add_sub_eq_l.
    apply Nat.sub_add. exact Hk. }
  rewrite E in Ht. exact Ht.
Qed.

Lemma measureVariance_shape (k : nat) :
  measureVariance (shape k)
  = max0 ((addWhite (4096 - k) 0 0).2 / toFloat (64 * 64)
          - (addWhite (4096 - k) 0 0).1 / toFloat (64 * 64)
            * ((addWhite (4096 - k) 0 0).1 / toFloat (64 * 64)))%float.
Proof.
  unfold measureVariance, shape. rewrite sums_black, sums_white.
  generalize (addWhite (4096 - k) 0 0). intros [a b]. reflexivity.
Qed.

Lemma below_by_measure (down : list Z) :
  length down = (4 * 4096)%nat →
  (intensityVariance down <? 400)%float = (measureVariance down <? 400)%float.
Proof.
  intros Hl. rewrite (measureVariance_intensity down Hl).
  symmetry. apply max0_below.
Qed.

Lemma shape_below (k : nat) :
  (k ≤ 4096)%nat →
  (intensityVariance (shape k) <? 400)%float
  = ((k <? 26)%nat || (4070 <? k)%nat).
Proof.
  intros Hk.
  etrans; [exact (below_by_measure (shape k) (length_shape k Hk)) |].
  rewrite measureVariance_shape.
  apply shapeTest_below, shape_test_holds. exact Hk.
Qed.

Lemma intensity_of_white : intensityVariance (uniform 255) = 0%float.
Proof. vm_compute. reflexivity. Qed.

(** C7. With a free slot and the capture of a 64 x 64 downsample at hand,
    [addToStory] leaves the panels as they are and shows the detail
    message exactly when the blob is smaller than 3000 bytes or the
    intensity variance of the downsample (the mean of the squared grey
    levels less the square of their mean) is below 400; otherwise it
    appends the panel.  A uniformly white downsample has variance 0 and is
    rejected whatever the blob size; a black shape on white is below 400
    exactly when it covers fewer than 26, or more than 4070, of the 4096
    pixels. *)
Theorem quality_gate (b : Blob) (down : list Z) (now : Z) (u : jsstring) st :
  (length (frames st) < 3)%nat →
  length down = (4 * 4096)%nat →
  let st' := addToStory (Some b) down now u st in
  let plain :=
    blobSize b < 3000 ∨ (intensityVariance down <? 400)%float = true in
  ((frames st' = frames st ∧ toast st' = Some msgDetail) ↔ plain)
  ∧ (¬ plain →
     st' = mkStory (frames st ++ [Some (mkFrame now u b)]) (dragIndex st)
             (toast st))
  ∧ measureVariance (uniform 255) = 0%float
  ∧ intensityVariance (uniform 255) = 0%float
  ∧ addToStory (Some b) (uniform 255) now u st = show msgDetail st
  ∧ (∀ k, (k ≤ 4096)%nat →
       (intensityVariance (shape k) <? 400)%float = true
       ↔ (k < 26 ∨ 4070 < k)%nat).
Proof.
  intros H Hl st' plain.
  pose proof (gate_by_intensity b down Hl) as Hcond. fold plain in Hcond.
  assert (Hst' : st' = if tooPlain b (measureVariance down)
                       then show msgDetail st
                       else mkStory (frames st ++ [Some (mkFrame now u b)])
                              (dragIndex st) (toast st))
    by by apply addToStory_cases.
  split; [| split; [| split; [| split; [| split]]]].
  - rewrite <- Hcond, Hst'. destruct (tooPlain b (measureVariance down)); cbn.
    + done.
    + split; [| done]. intros [E _]. apply (f_equal length) in E.
      rewrite length_app in E. cbn in E. lia.
  - rewrite <- Hcond, Hst'. by destruct (tooPlain b (measureVariance down)).
  - apply variance_of_white.
  - apply intensity_of_white.
  - rewrite addToStory_cases by done. rewrite variance_of_white.
    unfold tooPlain. by rewrite orb_true_r.
  - intros k Hk. rewrite shape_below by exact Hk.
    rewrite orb_true_iff, !Nat.ltb_lt. reflexivity.
Qed.

Lemma quality_gate_witness :
  addToStory (Some (mkBlob 5000)) (shape 300) 1 (js "blob:1") initial
  = mkStory [Some (mkFrame 1 (js "blob:1") (mkBlob 5000))] None None
  ∧ addToStory (Some (mkBlob 2999)) (shape 300) 1 (js "blob:1") initial
    = show msgDetail initial
  ∧ addToStory (Some (mkBlob 5000)) (shape 20) 1 (js "blob:1") initial
    = show msgDetail initial
  ∧ addToStory (Some (mkBlob 9000)) (uniform 255) 1 (js "blob:1") initial
    = show msgDetail initial.
Proof.
  destruct (quality_gate (mkBlob 5000) (shape 300) 1 (js "blob:1") initial)
    as (_ & Hacc & _ & _ & Hwhite & _);
    [vm_compute; lia | vm_compute; reflexivity |].
  destruct (quality_gate (mkBlob 2999) (shape 300) 1 (js "blob:1") initial)
    as ([_ Hsmall] & _); [vm_compute; lia | vm_compute; reflexivity |].
  destruct (quality_gate (mkBlob 5000) (shape 20) 1 (js "blob:1") initial)
    as ([_ Hplain] & _ & _ & _ & _ & Hshape);
    [vm_compute; lia | vm_compute; reflexivity |].
  split; [| split; [| split]].
  - apply Hacc. intros [Hs | Hv]; [vm_compute in Hs; discriminate Hs |].
    apply (Hshape 300%nat) in Hv; lia.
  - destruct Hsmall as [Hf Ht]; [left; vm_compute; reflexivity |].
    vm_compute in Hf, Ht |- *. reflexivity.
  - destruct Hplain as [Hf Ht];
      [right; apply (Hshape 20%nat); lia |].
    vm_compute in Hf, Ht |- *. reflexivity.
  - vm_compute in Hwhite |- *. reflexivity.
Defined.

Lemma length_delete_le {A} (l : list A) (i : nat) :
  (length (delete i l) ≤ length l)%nat
  ∧ ((i < length l)%nat → S (length (delete i l)) = length l).
Proof.
  rewrite delete_take_drop, length_app, length_take, length_drop.
  split; lia.
Qed.

Lemma length_moveTo (from to : nat) p :
  length (moveTo from to p) = S (length (delete from p)).
Proof.
  unfold moveTo. rewrite length_app. cbn [length].
  rewrite length_take, length_drop. lia.
Qed.

(** A handler that runs to its end before the next event keeps at most
    three panels. *)
Lemma handle_roomy (e : Event) st st' :
  roomy st → handle e st = Some st' → roomy st'.
Proof.
  intros Hr He. pose proof Hr as [Hl Hd].
  destruct e as [b down now u | i | i | m i | f1 f2 f3]; cbn [handle] in He.
  - injection He as <-. unfold addToStory, addFull, addResume.
    destruct (Nat.leb_spec 3 (length (frames st))); [exact Hr |].
    destruct b as [b|]; [| exact Hr].
    destruct (tooPlain b (measureVariance down)); [exact Hr |].
    split; [| exact Hd]. cbn [frames]. rewrite length_app. cbn [length]. lia.
  - unfold removeFrame in He. destruct (allDefined (frames st)); [| done].
    injection He as <-. split; [| exact Hd]. cbn [frames].
    pose proof (List.filter_length_le
                  (λ f, match f with Some f => negb (id f =? i) | None => true end)
                  (frames st)). lia.
  - injection He as <-. unfold dragStart.
    destruct (frames st !! i) as [[f|]|] eqn:E; try exact Hr.
    split; [exact Hl |]. cbn [dragIndex]. intros d [= <-].
    apply lookup_lt_Some in E. lia.
  - injection He as <-. unfold dropOn.
    destruct (dragIndex st) as [d|] eqn:E; [| exact Hr].
    destruct (d =? i)%nat; [exact Hr |].
    split; [| done]. cbn [frames]. rewrite length_moveTo.
    specialize (Hd d eq_refl).
    destruct m.
    + destruct (length_delete_le (frames st) d) as [Hle Hlt].
      destruct (Nat.lt_ge_cases d (length (frames st))) as [Hin | Hout];
        [specialize (Hlt Hin) |]; lia.
    + destruct (length_delete_le (frames st) 0) as [Hle Hlt].
      destruct (Nat.lt_ge_cases 0 (length (frames st))) as [Hin | Hout];
        [specialize (Hlt Hin) |]; lia.
  - unfold tryExample, exampleResume in He.
    destruct (allDefined (frames st)); [| done].
    injection He as <-. split; [cbn; lia | exact Hd].
Qed.

Lemma handleAll_roomy (es : list Event) st st' :
  roomy st → handleAll es st = Some st' → roomy st'.
Proof.
  revert st. induction es as [|e es IH]; intros st Hr He; cbn in He.
  - by injection He as <-.
  - destruct (handle e st) as [st1|] eqn:E; [| done].
    by apply (IH st1); [apply (handle_roomy e st) |].
Qed.

(** C8 fails on the code.  With two panels, two clicks on ADD TO STORY
    of which the second comes before the capture of the first is ready
    both pass the test of l.1329, and both append: four panels.  The same
    two adds one after the other give three panels and the message.  An
    add clicked before TRY EXAMPLE and resumed after the scenes are
    loaded appends to the three scenes as well. *)
Theorem overlapping_adds_reach_four :
  let two := mkStory [Some (panel 1); Some (panel 2)] None None in
  let captured n :=
    Captured (Some (mkBlob 5000)) twoTone n (js "blob:x") in
  ticks [AddClicked; AddClicked; captured 3; captured 4] (mkPage two 0 0)
  = Some (mkPage
            (mkStory [Some (panel 1); Some (panel 2); Some (panel 3);
                      Some (panel 4)] None None) 0 0)
  ∧ ticks [AddClicked; captured 3; AddClicked] (mkPage two 0 0)
    = Some (mkPage
              (mkStory [Some (panel 1); Some (panel 2); Some (panel 3)]
                 None (Some msgFull)) 0 0)
  ∧ ticks [AddClicked; ExampleClicked;
           ScenesLoaded (panel 1) (panel 2) (panel 3); captured 4]
      (mkPage initial 0 0)
    = Some (mkPage
              (mkStory [Some (panel 1); Some (panel 2); Some (panel 3);
                        Some (panel 4)] None (Some msgExample)) 0 0).
Proof. intros two captured. repeat split; vm_compute; reflexivity. Qed.

End Panels.

(** * Further properties of the drawing stage *)

Section StageGestures.

Implicit Types (st : Stage) (s : Snapshot) (gs : list Gesture).

Lemma push_consistent st :
  restoring st = false →
  (length (undo st) + length (redo st) ≤ historyCap)%nat →
  consistent (push st).
Proof.
  intros Hr Hc.
  destruct (push_stacks st) as (Hu & Hre & Hcv & Hi); [done | lia |].
  split; [done | |].
  - rewrite Hu, Hre, length_lastN, length_app. cbn [length]. lia.
  - rewrite Hu, Hcv. apply lastN_snoc_top. unfold historyCap. lia.
Qed.

Lemma push_brush st : brushApplied st → brushApplied (push st).
Proof. unfold push. by destruct (restoring st). Qed.

Lemma strokeDone_settled (pts : list (Z * Z)) st :
  settledStage st → settledStage (strokeDone pts st).
Proof.
  intros [Hc Hb]. unfold strokeDone.
  destruct (isDrawingMode (canvas st)) eqn:Em; [| done].
  destruct (freeDrawingBrush (canvas st)) as [b|] eqn:Eb; [| done].
  destruct Hc as [Hr Hcap Ht]. split.
  - by apply push_consistent.
  - apply push_brush. unfold brushApplied in *. cbn [tool canvas setCanvas
      isDrawingMode freeDrawingBrush size color].
    destruct (tool st);
      [ destruct Hb as [_ Hb']; split; [done | congruence]
      | destruct Hb as [_ Hb']; split; [done | congruence]
      | congruence ].
Qed.

Lemma floodFillAt_settled (pixels : list Z) (x y : Z) (hex : jsstring) st :
  settledStage st → settledStage (floodFillAt pixels x y hex st).
Proof.
  intros [Hc Hb]. unfold floodFillAt.
  destruct (floodFillData _ _ _ _ _ _); [done | | done].
  destruct Hc as [Hr Hcap Ht]. split.
  - by apply push_consistent.
  - by apply push_brush.
Qed.

Lemma applyBrush_settled st : consistent st → settledStage (applyBrush st).
Proof.
  intros [Hr Hcap Ht]. unfold applyBrush.
  destruct (tool st) eqn:E; split;
    try (split; [exact Hr | exact Hcap | exact Ht]);
    unfold brushApplied; cbn [tool canvas setCanvas isDrawingMode
                               freeDrawingBrush size color];
    rewrite E; done.
Qed.

Lemma handleClear_settled st : settledStage st → settledStage (handleClear st).
Proof.
  intros [[Hr Hcap Ht] Hb]. unfold handleClear. split.
  - apply push_consistent; [done | cbn; unfold historyCap; lia].
  - apply push_brush. unfold brushApplied in *. cbn. by destruct (tool st).
Qed.

Lemma restore_brush s st : brushApplied st → brushApplied (restore s st).
Proof. done. Qed.

Lemma handleUndo_brush st : brushApplied st → brushApplied (handleUndo st).
Proof.
  intros Hb. unfold handleUndo. destruct (_ <=? _)%nat; [done |].
  destruct (last (undo st)); by destruct (last (removelast (undo st))).
Qed.

Lemma handleRedo_brush st : brushApplied st → brushApplied (handleRedo st).
Proof. intros Hb. unfold handleRedo. by destruct (last (redo st)). Qed.

Lemma commit_brush s st : brushApplied st → brushApplied (commit s st).
Proof. intros Hb. unfold commit. by apply push_brush. Qed.

Lemma gesture_settled (g : Gesture) st :
  settledStage st → settledStage (gesture g st).
Proof.
  intros H. pose proof H as [Hc Hb].
  destruct g as [pts | pixels x y | t | col | n | s | | |]; cbn [gesture].
  - by apply strokeDone_settled.
  - unfold onDown. destruct (tool st); try done. by apply floodFillAt_settled.
  - apply applyBrush_settled. by destruct Hc.
  - apply applyBrush_settled. by destruct Hc.
  - apply applyBrush_settled. by destruct Hc.
  - split; [by apply commit_consistent | by apply commit_brush].
  - split; [by apply handleUndo_consistent | by apply handleUndo_brush].
  - split; [by apply handleRedo_consistent | by apply handleRedo_brush].
  - by apply handleClear_settled.
Qed.

Lemma play_settled gs st : settledStage st → settledStage (play gs st).
Proof.
  revert st. induction gs as [|g gs IH]; intros st H; [done |].
  cbn. apply IH. by apply gesture_settled.
Qed.

Lemma mount_settled : settledStage mount.
Proof. split; [apply mount_consistent | by split]. Qed.

(** Redo right after an undo that popped a snapshot gives the stage
    back. *)
Lemma redo_undo_id st :
  consistent st → (2 ≤ length (undo st))%nat → handleRedo (handleUndo st) = st.
Proof.
  intros [Hr Hc Ht] H2.
  destruct (two_last (undo st)) as (u & p & c & E); [done |].
  rewrite (handleUndo_pop st u p c E).
  rewrite (handleRedo_pop _ (redo st) c) by reflexivity.
  rewrite E in Ht. replace (u ++ [p; c]) with ((u ++ [p]) ++ [c]) in Ht, E
    by by rewrite <- app_assoc.
  rewrite last_snoc in Ht. injection Ht as ->.
  destruct st as [cv ? ? ? ? ? ?]. cbn in *. subst. by destruct cv.
Qed.

(** A push of a changed canvas, then undo: the scene before the change
    is back, and the stack had room for the undo. *)
Lemma undo_after_push (c' : Canvas) st :
  consistent st →
  let st1 := push (setCanvas c' st) in
  toJSON (canvas (handleUndo st1)) = toJSON (canvas st)
  ∧ (2 ≤ length (undo st1))%nat ∧ consistent st1.
Proof.
  intros Hst st1. pose proof Hst as [Hr Hc Ht].
  assert (H1 : consistent st1) by by apply push_consistent.
  destruct (push_stacks (setCanvas c' st)) as (Hu & _); [done | cbn; lia |].
  fold st1 in Hu. cbn [undo canvas setCanvas] in Hu.
  apply last_Some in Ht as [u0 E]. rewrite E in Hu.
  assert (Hu' : undo st1
                = drop (length u0 + 2 - historyCap) u0
                  ++ [toJSON (canvas st); toJSON c']).
  { rewrite Hu. unfold lastN. rewrite <- app_assoc. cbn [app].
    rewrite length_app. cbn [length].
    replace (length u0 + 2 - historyCap)%nat
      with (length u0 + 2 - historyCap)%nat by done.
    rewrite drop_app_le by (unfold historyCap; lia). reflexivity. }
  split; [| split; [| done]].
  - rewrite (handleUndo_pop st1 _ _ _ Hu'). cbn. apply toJSON_loadFromJSON.
  - rewrite Hu', length_app. cbn [length]. lia.
Qed.

(** X1. After any sequence of gestures from the mounted stage the stage
    is not restoring, the two stacks hold at most 30 snapshots together,
    the undo stack is not empty, and its top is the scene on the canvas. *)
Theorem stage_invariant gs :
  let st := play gs mount in
  restoring st = false
  ∧ (length (undo st) + length (redo st) ≤ historyCap)%nat
  ∧ (1 ≤ length (undo st) ≤ historyCap)%nat
  ∧ last (undo st) = Some (toJSON (canvas st)).
Proof.
  intros st.
  destruct (play_settled gs mount mount_settled) as [[Hr Hc Ht] _].
  fold st in Hr, Hc, Ht. repeat split; try done; try lia.
  destruct (undo st); [discriminate | cbn; lia].
Qed.

(** X2. After any sequence of gestures from the mounted stage, a stroke
    drawn with the fill tool selected adds nothing, and one drawn with the
    brush or the eraser adds one path with the colour now selected (white
    for the eraser) and the size now selected (3 for size 0). *)
Theorem stroke_uses_selection gs (pts : list (Z * Z)) :
  let st := play gs mount in
  match tool st with
  | fill => strokeDone pts st = st
  | t =>
      objects (canvas (strokeDone pts st))
      = objects (canvas st)
        ++ [mkPath pts (match t with eraser => white | _ => color st end)
              (brushSize (size st))]
  end.
Proof.
  intros st.
  destruct (play_settled gs mount mount_settled) as [_ Hb]. fold st in Hb.
  unfold brushApplied in Hb. unfold strokeDone.
  destruct (tool st);
    [ destruct Hb as [-> ->]; by rewrite push_canvas
    | destruct Hb as [-> ->]; by rewrite push_canvas
    | by rewrite Hb ].
Qed.

(** X3. After any sequence of gestures from the mounted stage, with the
    brush or the eraser selected, undo right after a stroke shows the
    scene as it was before the stroke, and redo right after that undo
    gives back the stage with the stroke. *)
Theorem stroke_undo_redo gs (pts : list (Z * Z)) :
  let st := play gs mount in
  tool st ≠ fill →
  let st1 := strokeDone pts st in
  toJSON (canvas (handleUndo st1)) = toJSON (canvas st)
  ∧ handleRedo (handleUndo st1) = st1
  ∧ toJSON (canvas st1) ≠ toJSON (canvas st).
Proof.
  intros st Hne st1.
  destruct (play_settled gs mount mount_settled) as [Hc Hb].
  fold st in Hc, Hb. unfold brushApplied in Hb.
  assert (Hm : isDrawingMode (canvas st) = true
               ∧ ∃ b, freeDrawingBrush (canvas st) = Some b).
  { destruct (tool st); [| | done]; destruct Hb as [-> ->]; eauto. }
  destruct Hm as [Hm [b Hbr]].
  unfold st1, strokeDone. rewrite Hm, Hbr.
  match goal with
  | |- context [setCanvas ?c' st] =>
      destruct (undo_after_push c' st Hc) as (H1 & H2 & H3)
  end.
  split; [exact H1 |]. split; [by apply redo_undo_id |].
  rewrite push_canvas. cbn. intros [= E].
  apply (f_equal length) in E. rewrite length_app in E. cbn in E. lia.
Qed.

(** X4. After any sequence of gestures from the mounted stage, undo right
    after a fill that ran shows the scene as it was before the fill
    (objects, background colour and background image), and redo right
    after that undo gives back the filled stage. *)
Theorem fill_undo_redo gs (pixels : list Z) (sx sy : Z) (hex : jsstring) :
  let st := play gs mount in
  let c := canvas st in
  length pixels = Z.to_nat (width c * height c * 4) →
  inb (width c) (height c) sx sy →
  sameColor (seedSample (width c) pixels sx sy) (hexToRgba hex) = false →
  let st1 := floodFillAt pixels sx sy hex st in
  toJSON (canvas (handleUndo st1)) = toJSON c
  ∧ handleRedo (handleUndo st1) = st1
  ∧ backgroundColor (canvas st1) = None.
Proof.
  intros st c Hl Hb Hs st1. subst c.
  destruct (play_settled gs mount mount_settled) as [Hc _]. fold st in Hc.
  destruct (floodFillAt_commits st pixels sx sy hex Hl Hb Hs)
    as (d & Hd & _ & _ & Hbg & _). fold st1 in Hbg.
  unfold st1, floodFillAt in *. rewrite Hd in *.
  match goal with
  | |- context [setCanvas ?c' st] =>
      destruct (undo_after_push c' st Hc) as (H1 & H2 & H3)
  end.
  split; [exact H1 |]. split; [by apply redo_undo_id | exact Hbg].
Qed.

(** X5. After any sequence of gestures from the mounted stage, Clear
    leaves a canvas without objects on a white background, one snapshot
    (of that cleared canvas) on the undo stack and none on the redo stack,
    so that neither undo nor redo can bring anything back. *)
Theorem clear_resets_history gs :
  let st' := handleClear (play gs mount) in
  toJSON (canvas st') = blank
  ∧ undo st' = [blank] ∧ redo st' = []
  ∧ handleUndo st' = st' ∧ handleRedo st' = st'.
Proof.
  intros st'.
  destruct (play_settled gs mount mount_settled) as [[Hr _ _] _].
  assert (Hu : undo st' = [blank] ∧ redo st' = [] ∧ toJSON (canvas st') = blank).
  { unfold st', handleClear, push. cbn [restoring setStacks setCanvas].
    rewrite Hr. done. }
  destruct Hu as (Hu & Hre & Hcv). repeat split; try done.
  - apply handleUndo_floor. rewrite Hu. cbn. lia.
  - by apply handleRedo_empty.
Qed.

(** X6. Undo and redo only move snapshots between the two stacks: after
    any sequence of undos and redos, from any stage, the undo stack
    followed by the reversed redo stack is the same list as before. *)
Theorem undo_redo_conserve (acts : list Action) st :
  Forall (λ a, a = Undo ∨ a = Redo) acts →
  undo (run acts st) ++ rev (redo (run acts st)) = undo st ++ rev (redo st).
Proof.
  revert st. induction acts as [|a acts IH]; intros st Hall; [done |].
  apply Forall_cons in Hall as [Ha Hall].
  cbn [run fold_left]. fold (run acts (act a st)). rewrite IH by done.
  destruct Ha as [-> | ->]; cbn [act].
  - destruct (Nat.le_gt_cases (length (undo st)) 1) as [H1 | H1].
    { by rewrite handleUndo_floor. }
    destruct (two_last (undo st)) as (u & p & c & E); [lia |].
    rewrite (handleUndo_pop st u p c E). cbn. rewrite E, rev_app_distr.
    cbn. by rewrite <- !app_assoc.
  - destruct (last (redo st)) as [s|] eqn:E.
    + apply last_Some in E as [r E]. rewrite (handleRedo_pop st r s E).
      cbn. rewrite E, rev_app_distr. cbn. by rewrite <- !app_assoc.
    + apply last_None in E. by rewrite handleRedo_empty.
Qed.

End StageGestures.

Lemma stroke_undo_redo_witness :
  toJSON (canvas (handleUndo
            (strokeDone [(2, 2); (3, 3)]
               (play [PickColor red; Stroke [(1, 1)]] mount))))
  = toJSON (canvas (play [PickColor red; Stroke [(1, 1)]] mount))
  ∧ handleRedo (handleUndo
      (strokeDone [(2, 2); (3, 3)]
         (play [PickColor red; Stroke [(1, 1)]] mount)))
    = strokeDone [(2, 2); (3, 3)]
        (play [PickColor red; Stroke [(1, 1)]] mount).
Proof.
  destruct (stroke_undo_redo [PickColor red; Stroke [(1, 1)]]
              [(2, 2); (3, 3)]) as (H1 & H2 & _).
  - vm_compute. discriminate.
  - split; [exact H1 | exact H2].
Defined.

Lemma fill_undo_redo_witness :
  toJSON (canvas (handleUndo
            (floodFillAt whitePixels 0 0 red
               (play [PickTool fill; PickColor red] mount))))
  = toJSON (canvas (play [PickTool fill; PickColor red] mount))
  ∧ handleRedo (handleUndo
      (floodFillAt whitePixels 0 0 red
         (play [PickTool fill; PickColor red] mount)))
    = floodFillAt whitePixels 0 0 red
        (play [PickTool fill; PickColor red] mount).
Proof.
  assert (Hs : seedSample 700 whitePixels 0 0 = colour (255, 255, 255, 255)).
  { apply (sampleAt_solid _ _ 0). lia. }
  destruct (fill_undo_redo [PickTool fill; PickColor red] whitePixels 0 0 red)
    as (H1 & H2 & _).
  - change (length whitePixels = Z.to_nat (700 * 700 * 4)).
    unfold whitePixels. rewrite length_solid. lia.
  - change (inb 700 700 0 0). unfold inb. lia.
  - change (sameColor (seedSample 700 whitePixels 0 0) (hexToRgba red) = false).
    rewrite Hs. reflexivity.
  - exact (conj H1 H2).
Defined.

Lemma undo_redo_conserve_witness :
  undo (run [Undo; Undo; Redo] (run [Commit sketch; Commit (scene 1)] mount))
  ++ rev (redo (run [Undo; Undo; Redo]
                  (run [Commit sketch; Commit (scene 1)] mount)))
  = [blank; sketch; scene 1].
Proof.
  rewrite (undo_redo_conserve [Undo; Undo; Redo]
             (run [Commit sketch; Commit (scene 1)] mount)).
  - reflexivity.
  - repeat (apply Forall_cons_2; [auto |]). apply Forall_nil_2.
Defined.

(** * Further properties of the flood fill *)

Section FillMore.

Implicit Types (st : Stage) (pixels : list Z).

Lemma sameColor_colour (c : Rgba) : sameColor (colour c) c = true.
Proof.
  destruct c as [[[r g] b] a]. unfold sameColor, colour. cbn.
  by rewrite !bool_decide_eq_true_2.
Qed.

Lemma filled_not_same (w h : Z) pixels (sx sy : Z) (fillc : Rgba) (d : list Z) :
  floodFillData w h pixels sx sy fillc = Filled d →
  inb w h sx sy ∧ sameColor (seedSample w pixels sx sy) fillc = false.
Proof.
  unfold floodFillData, seedSample, idx.
  destruct ((sx <? 0) || (sy <? 0) || (sx >=? w) || (sy >=? h)) eqn:Eb; [done |].
  apply inb_dec in Eb. by destruct (sameColor _ _).
Qed.

(** Every pixel of a canvas whose pixels all match the target is in the
    region of the seed: walk along the row of the seed, then along the
    column. *)
Lemma region_everywhere (w h : Z) pixels (target : Sample) (sx sy : Z) :
  inb w h sx sy →
  (∀ x y, inb w h x y → matches pixels target (idx w x y * 4) = true) →
  ∀ x y, inb w h x y → region w h pixels target sx sy x y.
Proof.
  intros Hs Hall.
  assert (Hrow : ∀ (n : nat) x, inb w h x sy → Z.abs (x - sx) = Z.of_nat n →
                 region w h pixels target sx sy x sy).
  { induction n as [|n IH]; intros x Hx Hn.
    - assert (x = sx) as -> by lia. apply region_seed; auto.
    - destruct (Z.lt_ge_cases sx x).
      + apply (region_step (x - 1) sy x sy); [| unfold adj; lia | done | auto].
        apply IH; [unfold inb in *; lia | lia].
      + apply (region_step (x + 1) sy x sy); [| unfold adj; lia | done | auto].
        apply IH; [unfold inb in *; lia | lia]. }
  assert (Hcol : ∀ (n : nat) x y, inb w h x y → Z.abs (y - sy) = Z.of_nat n →
                 region w h pixels target sx sy x y).
  { induction n as [|n IH]; intros x y Hxy Hn.
    - assert (y = sy) as -> by lia. by apply (Hrow (Z.to_nat (Z.abs (x - sx)))); [| lia].
    - destruct (Z.lt_ge_cases sy y).
      + apply (region_step x (y - 1) x y); [| unfold adj; lia | done | auto].
        apply IH; [unfold inb in *; lia | lia].
      + apply (region_step x (y + 1) x y); [| unfold adj; lia | done | auto].
        apply IH; [unfold inb in *; lia | lia]. }
  intros x y Hxy. by apply (Hcol (Z.to_nat (Z.abs (y - sy)))); [| lia].
Qed.

(** The region stays inside any set of points that holds the seed and
    that no matching in-bounds neighbour leaves. *)
Lemma region_enclosed (w h : Z) pixels (target : Sample) (sx sy : Z)
    (S : Z → Z → Prop) :
  S sx sy →
  (∀ x y x' y', S x y → adj x y x' y' → inb w h x' y' →
                matches pixels target (idx w x' y' * 4) = true → S x' y') →
  ∀ x y, region w h pixels target sx sy x y → S x y.
Proof. intros Hs Hstep x y Hr. induction Hr; eauto. Qed.

(** X7. A second fill at the same seed with the same colour, on the
    buffer the first fill committed, returns early: it changes nothing
    and pushes no snapshot. *)
Theorem fill_twice_skips st pixels (sx sy : Z) (hex : jsstring) (d : list Z) :
  let c := canvas st in
  length pixels = Z.to_nat (width c * height c * 4) →
  floodFillData (width c) (height c) pixels sx sy (hexToRgba hex) = Filled d →
  let st1 := floodFillAt pixels sx sy hex st in
  floodFillData (width c) (height c) d sx sy (hexToRgba hex) = Skipped
  ∧ floodFillAt d sx sy hex st1 = st1.
Proof.
  intros c Hl Hd st1. subst c.
  destruct (filled_not_same _ _ _ _ _ _ _ Hd) as [Hb Hs].
  destruct (floodFillAt_commits st pixels sx sy hex Hl Hb Hs)
    as (d' & Hd' & Hpix & _).
  assert (d' = d) as -> by congruence.
  assert (Hskip : floodFillData (width (canvas st)) (height (canvas st)) d sx sy
                    (hexToRgba hex) = Skipped).
  { unfold floodFillData. pose proof Hb as Hb'. apply inb_dec in Hb'.
    rewrite Hb'. fold (idx (width (canvas st)) sx sy).
    fold (pix (width (canvas st)) d sx sy). by rewrite Hpix, sameColor_colour. }
  split; [exact Hskip |].
  assert (Hc : width (canvas st1) = width (canvas st)
               ∧ height (canvas st1) = height (canvas st)).
  { unfold st1, floodFillAt. rewrite Hd. by rewrite push_canvas. }
  destruct Hc as [Hw Hh]. unfold floodFillAt at 1. by rewrite Hw, Hh, Hskip.
Qed.

(** X8. When every pixel of the canvas is within the tolerance of the
    colour sampled at the seed (a blank or evenly coloured canvas), a fill
    with another colour paints every pixel of the canvas. *)
Theorem fill_covers_even_canvas st pixels (sx sy : Z) (hex : jsstring) :
  let c := canvas st in
  let target := seedSample (width c) pixels sx sy in
  length pixels = Z.to_nat (width c * height c * 4) →
  inb (width c) (height c) sx sy →
  sameColor target (hexToRgba hex) = false →
  (∀ x y, inb (width c) (height c) x y →
          matches pixels target (idx (width c) x y * 4) = true) →
  ∃ d, floodFillData (width c) (height c) pixels sx sy (hexToRgba hex)
       = Filled d
    ∧ ∀ x y, inb (width c) (height c) x y →
             pix (width c) d x y = colour (hexToRgba hex).
Proof.
  intros c target Hl Hb Hs Hall. subst c target.
  destruct (floodFillData_filled _ _ _ _ _ _ Hl Hb Hs) as (d & Hd & _ & Hpx).
  exists d. split; [exact Hd |]. intros x y Hxy.
  rewrite <- hexToRgba_clamped. apply (Hpx x y Hxy).
  by apply region_everywhere.
Qed.

(** X9. A fill does not cross a closed boundary: if a set of points
    holds the seed and every in-bounds neighbour of one of its points is
    either in the set or does not match the sampled colour within the
    tolerance, then every pixel outside the set keeps its value. *)
Theorem fill_stays_enclosed st pixels (sx sy : Z) (hex : jsstring)
    (S : Z → Z → Prop) :
  let c := canvas st in
  let target := seedSample (width c) pixels sx sy in
  length pixels = Z.to_nat (width c * height c * 4) →
  inb (width c) (height c) sx sy →
  sameColor target (hexToRgba hex) = false →
  S sx sy →
  (∀ x y x' y', S x y → adj x y x' y' → inb (width c) (height c) x' y' →
                matches pixels target (idx (width c) x' y' * 4) = true →
                S x' y') →
  ∃ d, floodFillData (width c) (height c) pixels sx sy (hexToRgba hex)
       = Filled d
    ∧ ∀ x y, inb (width c) (height c) x y → ¬ S x y →
             pix (width c) d x y = pix (width c) pixels x y.
Proof.
  intros c target Hl Hb Hs Hin Hclosed. subst c target.
  destruct (floodFillData_filled _ _ _ _ _ _ Hl Hb Hs) as (d & Hd & _ & Hpx).
  exists d. split; [exact Hd |]. intros x y Hxy Hout.
  apply (Hpx x y Hxy). intros Hr. apply Hout.
  by apply (region_enclosed _ _ _ _ _ _ S Hin Hclosed).
Qed.

End FillMore.

Lemma fill_twice_skips_witness :
  floodFillData 3 1 [255; 0; 0; 255; 255; 0; 0; 255; 0; 0; 0; 255] 0 0
    (hexToRgba red) = Skipped
  ∧ floodFillAt [255; 0; 0; 255; 255; 0; 0; 255; 0; 0; 0; 255] 0 0 red
      (floodFillAt [255; 255; 255; 255; 250; 250; 250; 255; 0; 0; 0; 255]
         0 0 red (smallStage 3 1))
    = floodFillAt [255; 255; 255; 255; 250; 250; 250; 255; 0; 0; 0; 255]
        0 0 red (smallStage 3 1).
Proof.
  apply (fill_twice_skips (smallStage 3 1)
           [255; 255; 255; 255; 250; 250; 250; 255; 0; 0; 0; 255] 0 0 red
           [255; 0; 0; 255; 255; 0; 0; 255; 0; 0; 0; 255]).
  - reflexivity.
  - vm_compute. reflexivity.
Defined.

Lemma fill_covers_even_canvas_witness :
  ∃ d, floodFillData 2 2 (solid 4 (255, 255, 255, 255)) 1 0 (hexToRgba red)
       = Filled d
    ∧ d = solid 4 (255, 0, 0, 255).
Proof.
  destruct (fill_covers_even_canvas (smallStage 2 2)
              (solid 4 (255, 255, 255, 255)) 1 0 red) as (d & Hd & _).
  - reflexivity.
  - unfold inb. cbn. lia.
  - reflexivity.
  - intros x y [Hx Hy]. cbn in Hx, Hy.
    assert (Ex : x = 0 ∨ x = 1) by lia. assert (Ey : y = 0 ∨ y = 1) by lia.
    destruct Ex as [-> | ->], Ey as [-> | ->]; reflexivity.
  - exists d. split; [exact Hd |]. vm_compute in Hd.
    injection Hd as <-. reflexivity.
Defined.

Lemma fill_stays_enclosed_witness :
  ∃ d, floodFillData 3 1 [255; 255; 255; 255; 0; 0; 0; 255; 255; 255; 255; 255]
         0 0 (hexToRgba red) = Filled d
    ∧ pix 3 d 2 0 = colour (255, 255, 255, 255).
Proof.
  destruct (fill_stays_enclosed (smallStage 3 1)
              [255; 255; 255; 255; 0; 0; 0; 255; 255; 255; 255; 255] 0 0 red
              (λ x y, x = 0 ∧ y = 0)) as (d & Hd & Hout).
  - reflexivity.
  - unfold inb. cbn. lia.
  - reflexivity.
  - done.
  - intros x y x' y' [-> ->] Hadj [Hx Hy] Hm. cbn in Hx, Hy.
    unfold adj in Hadj. assert (E : x' = 1 ∧ y' = 0) by lia.
    destruct E as [-> ->]. vm_compute in Hm. discriminate Hm.
  - exists d. split; [exact Hd |].
    etrans; [apply (Hout 2 0); [unfold inb; cbn; lia | lia] | reflexivity].
Defined.

(** * Further properties of the colour parser *)

Section HexDigits.

Lemma hexDigit_range (c : N) (v : Z) : hexDigit c = Some v → 0 ≤ v < 16.
Proof.
  unfold hexDigit. intros H.
  repeat match type of H with
         | (if ?b then _ else _) = _ => destruct b eqn:?
         end; try discriminate; injection H as <-;
    repeat match goal with
           | H : (_ && _)%bool = true |- _ => apply andb_true_iff in H as [? ?]
           | H : (_ <=? _)%N = true |- _ => apply N.leb_le in H
           end; lia.
Qed.

Lemma hexDigit_no_x (c : N) (v : Z) :
  hexDigit c = Some v → ((c =? 120) || (c =? 88))%N = false.
Proof.
  unfold hexDigit. intros H.
  repeat match type of H with
         | (if ?b then _ else _) = _ => destruct b eqn:?
         end; try discriminate;
    repeat match goal with
           | H : (_ && _)%bool = true |- _ => apply andb_true_iff in H as [? ?]
           | H : (_ <=? _)%N = true |- _ => apply N.leb_le in H
           end;
    apply orb_false_iff; split; apply N.eqb_neq; lia.
Qed.

Lemma parseInt16_digits (c0 c1 : N) (r : jsstring) (v0 v1 : Z) :
  hexDigit c0 = Some v0 → hexDigit c1 = Some v1 →
  parseInt16 (c0 :: c1 :: r) = parseDigits (c0 :: c1 :: r) None.
Proof.
  intros H0 H1.
  destruct (hexDigit_plain c0) as [Hw _]; [by eexists |].
  pose proof (hexDigit_no_x c1 v1 H1) as Hx.
  assert (Hs : c0 ≠ 45%N ∧ c0 ≠ 43%N).
  { split; intros ->; discriminate. }
  destruct Hs as [Hm Hp].
  unfold parseInt16. cbn [trimStart]. rewrite Hw.
  assert (E1 : match c0 :: c1 :: r with
               | 45%N :: r0 => (-1, r0)
               | 43%N :: r0 => (1, r0)
               | _ => (1, c0 :: c1 :: r)
               end = (1, c0 :: c1 :: r)).
  { destruct c0 as [|p]; [reflexivity |].
    do 6 (destruct p as [p|p|]; try reflexivity); congruence. }
  rewrite E1.
  assert (E2 : match c0 :: c1 :: r with
               | 48%N :: x :: r0 =>
                   if ((x =? 120) || (x =? 88))%N then r0 else c0 :: c1 :: r
               | _ => c0 :: c1 :: r
               end = c0 :: c1 :: r).
  { destruct c0 as [|p]; [reflexivity |].
    do 6 (destruct p as [p|p|]; try reflexivity). by rewrite Hx. }
  rewrite E2.
  cbn [parseDigits]. rewrite H0, H1.
  destruct (parseDigits r (Some (16 * default 0 (Some (16 * default 0 None + v0)) + v1)))
    eqn:E; [f_equal; lia |].
  exfalso. revert E. generalize (16 * default 0 (Some (16 * default 0 None + v0)) + v1).
  clear. induction r as [|c r IH]; intros z; cbn; [done |].
  destruct (hexDigit c); [apply IH | done].
Qed.

(** X10. On six hex digits, with or without a leading #, [hexToRgba]
    returns the three channels read from the three pairs of digits, each
    pair as 16 times the first digit plus the second, and alpha 255; upper
    and lower case digits have the same value, so the case of the letters
    does not matter. *)
Theorem hexToRgba_six_digits (c0 c1 c2 c3 c4 c5 : N) (v0 v1 v2 v3 v4 v5 : Z) :
  hexDigit c0 = Some v0 → hexDigit c1 = Some v1 → hexDigit c2 = Some v2 →
  hexDigit c3 = Some v3 → hexDigit c4 = Some v4 → hexDigit c5 = Some v5 →
  hexToRgba [c0; c1; c2; c3; c4; c5]
  = (16 * v0 + v1, 16 * v2 + v3, 16 * v4 + v5, 255)
  ∧ hexToRgba (35%N :: [c0; c1; c2; c3; c4; c5])
    = (16 * v0 + v1, 16 * v2 + v3, 16 * v4 + v5, 255)
  ∧ (∀ c : N, (97 ≤ c ≤ 102)%N → hexDigit (c - 32) = hexDigit c).
Proof.
  intros H0 H1 H2 H3 H4 H5.
  destruct (hexDigit_plain c0) as [Hw0 Hn0]; [by eexists |].
  destruct (hexDigit_plain c5) as [Hw5 _]; [by eexists |].
  assert (Hh : isWhiteSpace 35 = false) by reflexivity.
  pose proof (trim_ends c0 c5 [c1; c2; c3; c4] Hw0 Hw5) as E1.
  pose proof (trim_ends 35 c5 [c0; c1; c2; c3; c4] Hh Hw5) as E2.
  cbn [app] in E1, E2.
  assert (Hm : ∀ r : jsstring,
             match c0 :: r with 35%N :: r0 => r0 | _ => c0 :: r end = c0 :: r).
  { intros r. destruct c0 as [|p]; [reflexivity |].
    do 6 (destruct p as [p|p|]; try reflexivity). congruence. }
  pose proof (hexDigit_range _ _ H0). pose proof (hexDigit_range _ _ H1).
  pose proof (hexDigit_range _ _ H2). pose proof (hexDigit_range _ _ H3).
  pose proof (hexDigit_range _ _ H4). pose proof (hexDigit_range _ _ H5).
  assert (Hval : toInt32 (parseInt16 [c0; c1; c2; c3; c4; c5])
                 = (16 * v0 + v1) * 65536 + (16 * v2 + v3) * 256 + (16 * v4 + v5)).
  { rewrite (parseInt16_digits c0 c1 _ v0 v1 H0 H1).
    cbn [parseDigits]. rewrite H0, H1, H2, H3, H4, H5.
    cbn [default from_option Datatypes.id toInt32]. unfold Datatypes.id.
    change (2 ^ 31) with 2147483648. change (2 ^ 32) with 4294967296.
    rewrite Z.mod_small by lia. lia. }
  assert (Hres : ∀ num, num = (16 * v0 + v1) * 65536 + (16 * v2 + v3) * 256
                              + (16 * v4 + v5) →
                 (Z.land (Z.shiftr num 16) 255, Z.land (Z.shiftr num 8) 255,
                  Z.land num 255, 255)
                 = (16 * v0 + v1, 16 * v2 + v3, 16 * v4 + v5, 255)).
  { intros num ->. change 255 with (Z.ones 8) at 1 2 3.
    rewrite !Z.land_ones, !Z.shiftr_div_pow2 by lia.
    change (2 ^ 16) with 65536. change (2 ^ 8) with 256.
    repeat f_equal; Z.div_mod_to_equations; lia. }
  split; [| split].
  - unfold hexToRgba. rewrite E1, Hm. cbn [length Nat.eqb negb].
    by apply Hres.
  - unfold hexToRgba. rewrite E2. cbn [length Nat.eqb negb].
    by apply Hres.
  - intros c Hc. unfold hexDigit.
    assert (c = 97 ∨ c = 98 ∨ c = 99 ∨ c = 100 ∨ c = 101 ∨ c = 102)%N as Hcs
      by lia.
    destruct Hcs as [-> | [-> | [-> | [-> | [-> | ->]]]]]; reflexivity.
Qed.

Lemma hexToRgba_six_digits_witness :
  hexToRgba (js "1aF09c") = (26, 240, 156, 255)
  ∧ hexToRgba (js "#1aF09c") = (26, 240, 156, 255).
Proof.
  destruct (hexToRgba_six_digits 49 97 70 48 57 99 1 10 15 0 9 12)
    as (H1 & H2 & _); try reflexivity.
  split; [exact H1 | exact H2].
Defined.

End HexDigits.

(** * Further properties of the panels and the quality gate *)

Section PanelsMore.

Implicit Types (st : Story) (p : list (option Frame)).

Lemma filter_others_id (i : Z) p :
  (∀ f, Some f ∈ p → id f ≠ i) →
  List.filter (λ f, match f with Some f => negb (id f =? i) | None => true end) p
  = p.
Proof.
  induction p as [|[f|] p IH]; intros H; cbn; [done | |].
  - destruct (Z.eqb_spec (id f) i) as [E | _].
    + destruct (H f); [apply list_elem_of_here | done].
    + cbn. f_equal. apply IH. intros g Hg. apply H. by apply list_elem_of_further.
  - f_equal. apply IH. intros g Hg. apply H. by apply list_elem_of_further.
Qed.

Lemma filter_others_twice (i : Z) p :
  let keep := λ f : option Frame,
                match f with Some f => negb (id f =? i) | None => true end in
  List.filter keep (List.filter keep p) = List.filter keep p.
Proof.
  intros keep. induction p as [|f p IH]; [done |]. cbn.
  destruct (keep f) eqn:E; cbn; [rewrite E; by f_equal | done].
Qed.

Lemma allDefined_filter (g : option Frame → bool) p :
  allDefined p = true → allDefined (List.filter g p) = true.
Proof.
  unfold allDefined. induction p as [|f p IH]; [done |]. cbn.
  intros [Hf Hp]%andb_true_iff. destruct (g f); cbn; [rewrite Hf |]; auto.
Qed.

(** X11. With every panel defined: removing an id that no panel has
    changes nothing; removing the id of a panel that was just accepted,
    when that id is fresh, gives back the state before the add; and
    removing the same id a second time changes nothing more. *)
Theorem remove_frame_laws (b : Blob) (down : list Z) (now i : Z)
    (u : jsstring) st st' :
  allDefined (frames st) = true →
  ((∀ f, Some f ∈ frames st → id f ≠ now) →
   removeFrame now st = Some st
   ∧ ((length (frames st) < 3)%nat →
      tooPlain b (measureVariance down) = false →
      removeFrame now (addToStory (Some b) down now u st) = Some st))
  ∧ (removeFrame i st = Some st' → removeFrame i st' = Some st').
Proof.
  intros Hd. split.
  - intros Hfresh. split.
    + unfold removeFrame. rewrite Hd, filter_others_id by done. by destruct st.
    + intros Hl Hok. rewrite addToStory_cases by done. rewrite Hok.
      unfold removeFrame. cbn [frames dragIndex toast].
      assert (Hd' : allDefined (frames st ++ [Some (mkFrame now u b)]) = true).
      { unfold allDefined in *. rewrite forallb_app, Hd. done. }
      rewrite Hd'. rewrite List.filter_app, filter_others_id by done.
      cbn. rewrite Z.eqb_refl. cbn. rewrite app_nil_r. by destruct st.
  - unfold removeFrame. rewrite Hd. intros [= <-]. cbn [frames dragIndex toast].
    rewrite allDefined_filter by done. by rewrite filter_others_twice.
Qed.

Lemma remove_frame_laws_witness :
  removeFrame 9 (addToStory (Some (mkBlob 5000)) twoTone 9 (js "blob:z")
                   (mkStory [Some (panel 1)] None None))
  = Some (mkStory [Some (panel 1)] None None).
Proof.
  destruct (remove_frame_laws (mkBlob 5000) twoTone 9 9
              (js "blob:z") (mkStory [Some (panel 1)] None None)
              (mkStory [Some (panel 1)] None None)) as [H _]; [reflexivity |].
  destruct H as [_ H].
  - intros f Hf. apply list_elem_of_singleton in Hf as [= ->]. vm_compute. lia.
  - apply H; [vm_compute; lia | vm_compute; reflexivity].
Defined.

Lemma allDefined_lookup p (i : nat) (f : option Frame) :
  allDefined p = true → p !! i = Some f → ∃ g, f = Some g.
Proof.
  unfold allDefined. intros Hd Hl.
  apply list_elem_of_lookup_2, list_elem_of_In in Hl.
  rewrite forallb_forall in Hd. specialize (Hd f Hl).
  destruct f; [by eexists | done].
Qed.

Lemma allDefined_Permutation p q :
  p ≡ₚ q → allDefined p = true → allDefined q = true.
Proof.
  unfold allDefined. intros Hp. rewrite !forallb_forall. intros H x Hx.
  apply H. apply list_elem_of_In. rewrite Hp. by apply list_elem_of_In.
Qed.

(** X12. With every panel defined, dragging the panel of slot [i] and
    dropping it on another slot [j] moves one panel to index [j] (to the
    end when [j] is past the end) and leaves the other panels in their
    order: the panels are permuted, none becomes undefined, and the drag
    index is reset.  The panel that moves is the one at the index the
    updater reads: the dragged panel when React runs the updater inside
    the call, the first panel, whichever was dragged, when it runs at the
    next render.  Dropping on the dragged slot itself changes no panel. *)
Theorem drop_moves_panel (m : Moment) (i j : nat) (f : Frame) st :
  allDefined (frames st) = true →
  frames st !! i = Some (Some f) →
  let st' := dropOn m j (dragStart i st) in
  let from := match m with InsideCall => i | AtRender => 0%nat end in
  let k := Nat.min j (length (frames st) - 1) in
  (i = j → frames st' = frames st)
  ∧ (i ≠ j →
     frames st' !! k = frames st !! from
     ∧ delete k (frames st') = delete from (frames st)
     ∧ frames st' ≡ₚ frames st
     ∧ allDefined (frames st') = true
     ∧ dragIndex st' = None).
Proof.
  intros Hd Hi st' from k. subst st'. unfold dragStart. rewrite Hi.
  unfold dropOn. cbn [dragIndex frames toast].
  destruct (Nat.eqb_spec i j) as [-> | Hne]; [done |].
  split; [done |]. intros _. cbn [frames dragIndex]. fold from.
  assert (Hfrom : ∃ g, frames st !! from = Some (Some g)).
  { destruct m; [by exists f |]. unfold from.
    destruct (frames st) as [|x p'] eqn:E; [done |].
    destruct (allDefined_lookup (x :: p') 0 x Hd eq_refl) as [g ->].
    by exists g. }
  destruct Hfrom as [g Hg].
  unfold moveTo. rewrite Hg. cbn [default from_option Datatypes.id].
  set (n := delete from (frames st)).
  assert (Hn : length n = (length (frames st) - 1)%nat).
  { apply length_delete. by eexists. }
  assert (Hk : k = length (take j n)).
  { rewrite length_take. unfold k. lia. }
  assert (Hperm : take j n ++ Some g :: drop j n ≡ₚ frames st).
  { rewrite <- Permutation_middle, take_drop. symmetry.
    by apply delete_Permutation. }
  split; [| split; [| split; [| split]]].
  - rewrite Hk. apply list_lookup_middle. done.
  - rewrite Hk, delete_middle. apply take_drop.
  - exact Hperm.
  - by apply (allDefined_Permutation (frames st)).
  - reflexivity.
Qed.

Lemma drop_moves_panel_witness :
  frames (dropOn AtRender 2 (dragStart 1
            (mkStory [Some (panel 1); Some (panel 2); Some (panel 3)] None None)))
    !! 2%nat = Some (Some (panel 1))
  ∧ delete 2%nat (frames (dropOn AtRender 2 (dragStart 1
       (mkStory [Some (panel 1); Some (panel 2); Some (panel 3)] None None))))
    = [Some (panel 2); Some (panel 3)].
Proof.
  destruct (drop_moves_panel AtRender 1 2 (panel 2)
              (mkStory [Some (panel 1); Some (panel 2); Some (panel 3)] None None))
    as [_ H]; [reflexivity | reflexivity |].
  destruct H as (H1 & H2 & _); [lia |]. split; [exact H1 | exact H2].
Defined.

(** X13. [createStory] hands the panels over only when there are exactly
    three: after three accepted captures from the empty collection it
    navigates with their three URLs and their three blobs in the order
    they were added, and shows no message; with another number of panels
    it only shows the message. *)
Theorem create_story_hands_over (b1 b2 b3 : Blob) (d1 d2 d3 : list Z)
    (n1 n2 n3 : Z) (u1 u2 u3 : jsstring) st :
  (tooPlain b1 (measureVariance d1) = false →
   tooPlain b2 (measureVariance d2) = false →
   tooPlain b3 (measureVariance d3) = false →
   let st3 := addToStory (Some b3) d3 n3 u3
                (addToStory (Some b2) d2 n2 u2
                   (addToStory (Some b1) d1 n1 u1 initial)) in
   createStory st3
   = (st3, Some (mkHandoff [u1; u2; u3] [b1; b2; b3]))
   ∧ toast st3 = None)
  ∧ (length (frames st) ≠ 3%nat →
     createStory st = (show msgThree st, None)).
Proof.
  split.
  - intros H1 H2 H3 st3. subst st3.
    rewrite (addToStory_cases b1) by (cbn; lia). rewrite H1.
    rewrite (addToStory_cases b2) by (cbn; lia). rewrite H2.
    rewrite (addToStory_cases b3) by (cbn; lia). rewrite H3.
    done.
  - intros Hne. unfold createStory.
    by destruct (Nat.eqb_spec (length (frames st)) 3).
Qed.

Lemma create_story_hands_over_witness :
  snd (createStory
         (addToStory (Some (mkBlob 5000)) twoTone 3 (js "blob:c")
            (addToStory (Some (mkBlob 4000)) twoTone 2 (js "blob:b")
               (addToStory (Some (mkBlob 3000)) twoTone 1 (js "blob:a")
                  initial))))
  = Some (mkHandoff [js "blob:a"; js "blob:b"; js "blob:c"]
            [mkBlob 3000; mkBlob 4000; mkBlob 5000])
  ∧ createStory initial = (show msgThree initial, None).
Proof.
  destruct (create_story_hands_over (mkBlob 3000) (mkBlob 4000) (mkBlob 5000)
              twoTone twoTone twoTone 1 2 3 (js "blob:a") (js "blob:b")
              (js "blob:c") initial) as [H3 Hn].
  destruct H3 as [H3 _]; try (vm_compute; reflexivity).
  split; [by rewrite H3 | apply Hn; vm_compute; lia].
Defined.

Lemma sums_channel_sum (n : nat) (r g b a : Z) (s s2 : float) :
  sums (concat (replicate n [r; g; b; a])) s s2
  = sums (concat (replicate n [r + g + b; 0; 0; 255])) s s2.
Proof.
  revert s s2. induction n as [|n IH]; intros s s2; [done |].
  cbn [replicate concat app sums]. rewrite IH.
  by replace (r + g + b + 0 + 0) with (r + g + b) by lia.
Qed.

Lemma plain_for_every_sum :
  forallb (λ s, (measureVariance (uniformRgba s 0 0 255) <? 400)%float)
    channelSums = true.
Proof. vm_compute. reflexivity. Qed.

(** X14. A canvas of one single colour never passes the quality gate:
    whatever the colour and the size of the blob, when the 64 x 64
    downsample holds one colour everywhere, [addToStory] shows the detail
    message and adds no panel. *)
Theorem one_colour_is_rejected (r g b a : Z) (bl : Blob) (now : Z)
    (u : jsstring) st :
  0 ≤ r ≤ 255 → 0 ≤ g ≤ 255 → 0 ≤ b ≤ 255 →
  (length (frames st) < 3)%nat →
  (measureVariance (uniformRgba r g b a) <? 400)%float = true
  ∧ addToStory (Some bl) (uniformRgba r g b a) now u st = show msgDetail st.
Proof.
  intros Hr Hg Hb Hl.
  assert (Hv : (measureVariance (uniformRgba r g b a) <? 400)%float = true).
  { unfold measureVariance, uniformRgba. rewrite sums_channel_sum.
    pose proof plain_for_every_sum as Hall. rewrite forallb_forall in Hall.
    apply (Hall (r + g + b)). apply list_elem_of_In, elem_of_seqZ. lia. }
  split; [exact Hv |].
  rewrite addToStory_cases by done. unfold tooPlain. by rewrite Hv, orb_true_r.
Qed.

Lemma one_colour_is_rejected_witness :
  addToStory (Some (mkBlob 90000)) (uniformRgba 10 200 30 255) 1 (js "blob:a")
    initial
  = show msgDetail initial.
Proof.
  destruct (one_colour_is_rejected 10 200 30 255 (mkBlob 90000) 1 (js "blob:a")
              initial) as [_ H]; try lia; [vm_compute; lia | exact H].
Defined.

End PanelsMore.

(** * The word wrap *)

Section WordWrap.

Variable tooWide : jsstring → bool.

Implicit Types (rows words : list jsstring) (line w : jsstring).

Lemma join_cons_ne (x : jsstring) rows :
  rows ≠ [] → Wrap.join (x :: rows) = x ++ 32%N :: Wrap.join rows.
Proof. by destruct rows. Qed.

Lemma join_prefix rows l1 l2 :
  Wrap.join l1 = Wrap.join l2 → (l1 = [] ↔ l2 = []) →
  Wrap.join (rows ++ l1) = Wrap.join (rows ++ l2).
Proof.
  intros Hj He. induction rows as [|x rows IH]; [done |].
  cbn [app]. destruct (decide (rows ++ l1 = [])) as [E | NE].
  - apply app_eq_nil in E as [-> E1]. pose proof (proj1 He E1) as E2.
    by rewrite E1, E2.
  - rewrite !join_cons_ne; [by rewrite IH | | done].
    intros E. apply app_eq_nil in E as [-> E2]. apply He in E2. by subst.
Qed.

Lemma join_merge rows line w rest :
  Wrap.join (rows ++ (line ++ 32%N :: w) :: rest)
  = Wrap.join (rows ++ line :: w :: rest).
Proof.
  apply join_prefix; [| done].
  rewrite (join_cons_ne line) by done.
  destruct rest as [|z rest]; [done |].
  rewrite !join_cons_ne by done. by rewrite <- app_assoc.
Qed.

Lemma wrapLoop_join words rows line :
  Forall (λ w, w ≠ []) words →
  Wrap.join (wrapOut (Wrap.wrapLoop tooWide words rows line).1
               (Wrap.wrapLoop tooWide words rows line).2)
  = Wrap.join (wrapOut rows line ++ words).
Proof.
  revert rows line. induction words as [|w words IH]; intros rows line Hne.
  { cbn. by rewrite app_nil_r. }
  apply Forall_cons in Hne as [Hw Hne]. cbn [Wrap.wrapLoop].
  destruct line as [|c l].
  - assert (E : wrapOut rows w = rows ++ [w]) by by destruct w.
    destruct (tooWide w); rewrite IH by done; rewrite E, <- app_assoc; done.
  - destruct (tooWide ((c :: l) ++ 32%N :: w)); rewrite IH by done.
    + assert (E : wrapOut (rows ++ [c :: l]) w = (rows ++ [c :: l]) ++ [w])
        by by destruct w.
      rewrite E. cbn [wrapOut]. by rewrite <- !app_assoc.
    + cbn [wrapOut app]. rewrite <- !app_assoc. cbn [app].
      apply (join_merge rows (c :: l) w words).
Qed.

Lemma wrapLoop_rows (P : jsstring → Prop) words rows line :
  (∀ l w, l ≠ [] → tooWide (l ++ 32%N :: w) = false → P (l ++ 32%N :: w)) →
  Forall P words → Forall P rows → (line ≠ [] → P line) →
  Forall P (wrapOut (Wrap.wrapLoop tooWide words rows line).1
              (Wrap.wrapLoop tooWide words rows line).2).
Proof.
  intros Hfit. revert rows line.
  induction words as [|w words IH]; intros rows line Hws Hrows Hline.
  { cbn. destruct line; [done |]. apply Forall_app. split; [done |].
    apply Forall_singleton. by apply Hline. }
  apply Forall_cons in Hws as [Hw Hws]. cbn [Wrap.wrapLoop].
  destruct line as [|c l].
  - destruct (tooWide w); by apply IH.
  - destruct (tooWide ((c :: l) ++ 32%N :: w)) eqn:E.
    + apply IH; [done | | done]. apply Forall_app. split; [done |].
      apply Forall_singleton. by apply Hline.
    + apply IH; [done | done |]. intros _. by apply Hfit.
Qed.

Lemma wrapLoop_nonempty words rows line :
  Forall (λ r, r ≠ []) rows →
  Forall (λ r, r ≠ [])
    (wrapOut (Wrap.wrapLoop tooWide words rows line).1
       (Wrap.wrapLoop tooWide words rows line).2).
Proof.
  revert rows line. induction words as [|w words IH]; intros rows line Hrows.
  { cbn. destruct line; [done |]. apply Forall_app. split; [done |].
    by apply Forall_singleton. }
  cbn [Wrap.wrapLoop]. destruct line as [|c l].
  - destruct (tooWide w); by apply IH.
  - destruct (tooWide ((c :: l) ++ 32%N :: w)); apply IH; [| done].
    apply Forall_app. split; [done |]. by apply Forall_singleton.
Qed.

Lemma splitWs_nonempty (s cur : jsstring) (inWs : bool) :
  (cur ≠ [] ∨ inWs = true ∨ ∃ c, head s = Some c ∧ isWhiteSpace c = false) →
  match last s with
  | Some c => isWhiteSpace c = false
  | None => cur ≠ []
  end →
  Forall (λ w, w ≠ []) (Wrap.splitWs cur inWs s).
Proof.
  revert cur inWs. induction s as [|c r IH]; intros cur inWs Hstart Hend.
  { cbn in *. by apply Forall_singleton. }
  assert (Hlast : r ≠ [] → last (c :: r) = last r) by by destruct r.
  cbn [Wrap.splitWs]. destruct (isWhiteSpace c) eqn:Ec.
  - assert (Hr : r ≠ []).
    { intros ->. cbn in Hend. congruence. }
    rewrite Hlast in Hend by done.
    assert (Hrest : Forall (λ w, w ≠ []) (Wrap.splitWs [] true r)).
    { apply IH; [right; by left |].
      destruct (last r) eqn:El; [done |]. by apply last_None in El. }
    destruct inWs; [done |]. apply Forall_cons. split; [| done].
    destruct Hstart as [H | [H | (c' & [= <-] & H)]]; [done | done | congruence].
  - apply IH; [left; by destruct cur |].
    destruct r as [|c' r'].
    + cbn. by destruct cur.
    + rewrite Hlast in Hend by done.
      destruct (last (c' :: r')) eqn:El; [done |]. by apply last_None in El.
Qed.

(** X15. The rows [wrap] makes of a text are never empty; each row fits
    the width or is a single word of the text; and for a text without
    white space at its ends, the rows joined by single spaces are the
    words of the text joined by single spaces: no word is lost, repeated,
    broken or moved. *)
Theorem wrap_keeps_words (text : jsstring) :
  let rows := Wrap.wrap tooWide text in
  Forall (λ r, r ≠ []) rows
  ∧ Forall (λ r, tooWide r = false ∨ r ∈ Wrap.split text) rows
  ∧ (trimmed text → Wrap.join rows = Wrap.join (Wrap.split text)).
Proof.
  intros rows.
  assert (Hrows : rows = wrapOut (Wrap.wrapLoop tooWide (Wrap.split text) [] []).1
                           (Wrap.wrapLoop tooWide (Wrap.split text) [] []).2).
  { unfold rows, Wrap.wrap. by destruct (Wrap.wrapLoop _ _ _ _). }
  rewrite Hrows. split; [| split].
  - by apply wrapLoop_nonempty.
  - apply wrapLoop_rows; [by left | | done | done].
    apply Forall_forall. by right.
  - intros [(c & Hc & Hwc) (c' & Hc' & Hwc')].
    rewrite wrapLoop_join; [done |].
    apply splitWs_nonempty; [right; right; eauto | by rewrite Hc'].
Qed.

End WordWrap.

Lemma wrap_keeps_words_witness :
  Wrap.join (Wrap.wrap (λ r, (9 <? length r)%nat) (js "the quick  brown fox"))
  = js "the quick brown fox"
  ∧ Wrap.wrap (λ r, (9 <? length r)%nat) (js "the quick  brown fox")
    = [js "the quick"; js "brown fox"].
Proof.
  destruct (wrap_keeps_words (λ r, (9 <? length r)%nat)
              (js "the quick  brown fox")) as (_ & _ & H).
  split; [| reflexivity].
  rewrite H; [reflexivity |].
  split; eexists; split; reflexivity.
Defined.

(** * The quiz *)

Section QuizClicks.

Variable qs : list Quiz.Question.

Implicit Types (q : Quiz.Quiz) (c : Quiz.Click) (cs : list Quiz.Click).

Lemma spread_verdicts (l : list Quiz.Slot) :
  Forall (λ s, ∃ b, s = Quiz.Val b) l → Quiz.spread l = l.
Proof.
  induction 1 as [|s l [b ->] _ IH]; [done |].
  unfold Quiz.spread in *. cbn [map]. by rewrite IH.
Qed.

Lemma setAt_end (v : Quiz.Slot) (l : list Quiz.Slot) :
  Quiz.setAt (length l) v l = l ++ [v].
Proof.
  unfold Quiz.setAt. rewrite Nat.ltb_irrefl, Nat.sub_diag. done.
Qed.

Lemma everyTrue_snoc (l : list Quiz.Slot) (b : bool) :
  Quiz.everyTrue (l ++ [Quiz.Val b]) = Quiz.everyTrue l && b.
Proof.
  unfold Quiz.everyTrue. rewrite forallb_app. cbn. by rewrite andb_true_r.
Qed.

Lemma start_inv : quizInv qs (Quiz.start qs).
Proof.
  unfold quizInv, Quiz.start. cbn.
  split; [done |]. split; [done |]. split; [done |].
  split; [destruct qs; [by right | left; cbn; lia] |].
  split; [done |]. by destruct qs.
Qed.

Lemma pick_inv (i : Z) q : quizInv qs q → quizInv qs (Quiz.pick i q).
Proof.
  intros Hinv. unfold Quiz.pick.
  destruct (Quiz.checked q) eqn:Ec; [done |].
  destruct Hinv as (Hq & Hlen & Hv & Hi & Hp & Ha).
  unfold quizInv. cbn. rewrite Ec in *. done.
Qed.

Lemma confirm_corrects q (p : Z) :
  quizInv qs q → Quiz.picked q = Some p → Quiz.checked q = false →
  ∃ b, Quiz.corrects (Quiz.confirm q) = Quiz.corrects q ++ [Quiz.Val b]
       ∧ Quiz.allRight (Quiz.confirm q)
         = ((length (Quiz.corrects q) + 1 =? length qs)%nat
            && Quiz.everyTrue (Quiz.corrects q) && b)
       ∧ Quiz.idx (Quiz.confirm q) = Quiz.idx q
       ∧ Quiz.questions (Quiz.confirm q) = qs
       ∧ Quiz.checked (Quiz.confirm q) = true
       ∧ Quiz.picked (Quiz.confirm q) = Some p.
Proof.
  intros (Hq & Hlen & Hv & Hi & Hp & Ha) Ep Ec.
  rewrite Ec, Nat.add_0_r in Hlen.
  unfold Quiz.confirm. rewrite Ep, Ec. cbn zeta.
  rewrite spread_verdicts by done. rewrite <- Hlen, setAt_end.
  eexists. cbn. split; [reflexivity |].
  rewrite Hq, everyTrue_snoc, length_app. cbn [length].
  split; [| done].
  rewrite andb_assoc.
  match goal with |- (if ?t then _ else _) = _ => destruct t end; [done |].
  rewrite Ha. destruct Hi as [Hi | [-> Hi]]; [| done].
  replace (length (Quiz.corrects q) =? length qs)%nat with false
    by (symmetry; apply Nat.eqb_neq; lia).
  by rewrite andb_false_r.
Qed.

Lemma confirm_inv q : quizInv qs q → quizInv qs (Quiz.confirm q).
Proof.
  intros Hinv.
  destruct (Quiz.picked q) as [p|] eqn:Ep;
    [| by unfold Quiz.confirm; rewrite Ep].
  destruct (Quiz.checked q) eqn:Ec;
    [by unfold Quiz.confirm; rewrite Ep, Ec |].
  destruct (confirm_corrects q p Hinv Ep Ec)
    as (b & Hc & Ha & Hi & Hq & Hch & Hp).
  destruct Hinv as (Hq0 & Hlen & Hv & Hi0 & Hp0 & Ha0).
  rewrite Ec, Nat.add_0_r in Hlen.
  unfold quizInv. rewrite Hc, Ha, Hi, Hq, Hch, Hp.
  rewrite length_app, everyTrue_snoc. cbn [length].
  split; [done |]. split; [lia |].
  split; [apply Forall_app; split; [done | apply Forall_singleton; eauto] |].
  split; [done |]. split; [done |]. clear Ha0 Ha.
  destruct (length (Quiz.corrects q) + 1 =? length qs)%nat eqn:El;
    cbn [andb].
  - apply Nat.eqb_eq in El.
    replace (0 <? length qs)%nat with true
      by (symmetry; apply Nat.ltb_lt; lia).
    done.
  - by rewrite andb_false_r.
Qed.

Lemma next_inv q :
  quizInv qs q → Quiz.checked q = true → quizInv qs (Quiz.next q).
Proof.
  intros Hinv Ec. unfold Quiz.next.
  destruct (Quiz.idx q + 1 <? length (Quiz.questions q))%nat eqn:El;
    [| done].
  destruct Hinv as (Hq & Hlen & Hv & Hi & Hp & Ha).
  rewrite Hq in El. rewrite Ec in Hlen. apply Nat.ltb_lt in El.
  unfold quizInv.
  cbn [Quiz.questions Quiz.idx Quiz.picked Quiz.checked Quiz.corrects
       Quiz.allRight].
  split; [done |]. split; [lia |]. split; [done |].
  split; [left; lia |]. split; [done |]. exact Ha.
Qed.

Lemma click_inv c q : quizInv qs q → quizInv qs (Quiz.click c q).
Proof.
  intros Hinv. destruct c as [i|]; cbn [Quiz.click].
  - by apply pick_inv.
  - unfold Quiz.handleNext. destruct (Quiz.picked q) eqn:Ep; [| done].
    destruct (Quiz.checked q) eqn:Ec.
    + by apply next_inv.
    + by apply confirm_inv.
Qed.

Lemma clicks_inv cs q : quizInv qs q → quizInv qs (Quiz.clicks cs q).
Proof.
  revert q. induction cs as [|c cs IH]; intros q Hinv; [done |].
  apply IH. by apply click_inv.
Qed.

Lemma click_prefix c q :
  quizInv qs q → Quiz.corrects q `prefix_of` Quiz.corrects (Quiz.click c q).
Proof.
  intros Hinv. destruct c as [i|]; cbn [Quiz.click].
  - unfold Quiz.pick. by destruct (Quiz.checked q).
  - unfold Quiz.handleNext. destruct (Quiz.picked q) as [p|] eqn:Ep; [| done].
    destruct (Quiz.checked q) eqn:Ec.
    + unfold Quiz.next. by destruct (_ <? _)%nat.
    + destruct (confirm_corrects q p Hinv Ep Ec) as (b & -> & _).
      by apply prefix_app_r.
Qed.

Lemma verdicts_all_true (l : list Quiz.Slot) :
  Forall (λ s, ∃ b, s = Quiz.Val b) l →
  Quiz.everyTrue l = true ↔ l = replicate (length l) (Quiz.Val true).
Proof.
  induction 1 as [|s l [b ->] _ IH]; [done |].
  unfold Quiz.everyTrue in *. cbn. rewrite andb_true_iff, IH. split.
  - intros [-> <-]. done.
  - intros [= -> E]. done.
Qed.

(** X16. Whatever is clicked on the quiz page, the page keeps one
    verdict, true or false and never an empty or undefined slot, for each
    question confirmed so far: as many verdicts as questions passed, plus
    one once the current question is checked; the current question is one
    of the quiz; and a checked question has a picked option. *)
Theorem quiz_keeps_one_verdict_each cs :
  let q := Quiz.clicks cs (Quiz.start qs) in
  length (Quiz.corrects q) = (Quiz.idx q + if Quiz.checked q then 1 else 0)%nat
  ∧ Forall (λ s, ∃ b, s = Quiz.Val b) (Quiz.corrects q)
  ∧ (qs ≠ [] → (Quiz.idx q < length qs)%nat)
  ∧ (Quiz.checked q = true → is_Some (Quiz.picked q)).
Proof.
  intros q.
  destruct (clicks_inv cs _ start_inv) as (Hq & Hlen & Hv & Hi & Hp & Ha).
  split; [done |]. split; [done |]. split; [| done].
  intros Hne. by destruct Hi as [Hi | [Hi _]].
Qed.

(** X17. Whatever is clicked on the quiz page, [allRight], which shows
    the confetti and reports the achievement, is set exactly when the quiz
    has a question and the verdicts are complete and all true. *)
Theorem quiz_all_right_iff cs :
  let q := Quiz.clicks cs (Quiz.start qs) in
  Quiz.allRight q = true
  ↔ qs ≠ [] ∧ Quiz.corrects q = replicate (length qs) (Quiz.Val true).
Proof.
  intros q.
  destruct (clicks_inv cs _ start_inv) as (Hq & Hlen & Hv & Hi & Hp & Ha).
  fold q in Ha, Hv. rewrite Ha, !andb_true_iff, Nat.ltb_lt, Nat.eqb_eq.
  rewrite (verdicts_all_true _ Hv). split.
  - intros [[H0 Hl] He]. split; [by destruct qs; cbn in H0; try lia |].
    by rewrite <- Hl.
  - intros [Hne He]. rewrite He at 1 2. rewrite length_replicate.
    split; [split; [destruct qs; [done | cbn; lia] | done] |].
    rewrite He at 1. by rewrite length_replicate.
Qed.

(** X18. A verdict, once given, stays: after more clicks the verdicts
    are those given before, in the same order, with new ones only at the
    end. *)
Theorem quiz_verdicts_stay cs more :
  Quiz.corrects (Quiz.clicks cs (Quiz.start qs))
  `prefix_of` Quiz.corrects (Quiz.clicks (cs ++ more) (Quiz.start qs)).
Proof.
  unfold Quiz.clicks at 2. rewrite fold_left_app.
  fold (Quiz.clicks cs (Quiz.start qs)).
  generalize (clicks_inv cs _ start_inv).
  generalize (Quiz.clicks cs (Quiz.start qs)). clear cs.
  induction more as [|c more IH]; intros q Hinv; [done |].
  cbn [fold_left]. etrans; [by apply click_prefix |].
  apply IH. by apply click_inv.
Qed.

End QuizClicks.
